(** * Verification of the puzzle backend [api/index.py]

    A shallow embedding of the request pipeline of [api/index.py]: the
    two-stage classical decryption, the solution scorer, the two request
    handlers, the cipher bundle and the two numeric feature extractors;
    followed by the theorems that settle the documented properties. *)

From Stdlib Require Import ZArith Lia Floats.
From stdpp Require Import base option list strings pretty gmap.

Local Open Scope Z_scope.

(** ** Python values and exceptions *)

Module Py.

(** The exceptions the modelled code can raise. *)
Inductive exn : Type :=
  | TypeError
  | ValueError
  | ZeroDivisionError
  | OverflowError
  | IndexError
  | KeyError
  | LibraryError.

(** A Python expression either yields a value or raises. *)
Inductive result (A : Type) : Type :=
  | Ok (a : A)
  | Raise (e : exn).
Global Arguments Ok {A} a.
Global Arguments Raise {A} e.

Global Instance result_ret : MRet result := λ A a, Ok a.
Global Instance result_bind : MBind result := λ A B f m,
  match m with
  | Ok a => f a
  | Raise e => Raise e
  end.

Global Instance result_fmap : FMap result := λ A B f m,
  match m with
  | Ok a => Ok (f a)
  | Raise e => Raise e
  end.

(** [try: body except Exception: handler] for a handler that is a value. *)
Definition try_except {A} (body : result A) (handler : A) : A :=
  match body with
  | Ok a => a
  | Raise _ => handler
  end.

(** A [str] is the list of its code points; a one-character string is a
    one-element list. *)
Abbreviation str := (list Z).

(** String literals of the source, as code points. *)
Definition lit (s : string) : str :=
  (λ a, Z.of_N (Ascii.N_of_ascii a)) <$> String.list_ascii_of_string s.

(** CPython's character database.  The ASCII range is spelled out below;
    the rows for code points from 128 on are the interpreter's Unicode
    tables, which the development takes as they come. *)
Class UnicodeData := {
  (** [str.isalpha] on one code point *)
  uni_isalpha : Z → bool;
  (** full upper-case mapping of one code point (may be several) *)
  uni_upper : Z → str;
  (** full lower-case mapping of the code point, given the text before and
      after it (the capital sigma looks at its context) *)
  uni_lower : str → Z → str → str;
  (** [str.isspace] on one code point *)
  uni_isspace : Z → bool
}.

Definition is_ascii (c : Z) : bool := c <? 128.
Definition ascii_isupper (c : Z) : bool := (65 <=? c) && (c <=? 90).
Definition ascii_islower (c : Z) : bool := (97 <=? c) && (c <=? 122).
Definition ascii_isspace (c : Z) : bool :=
  ((9 <=? c) && (c <=? 13)) || ((28 <=? c) && (c <=? 32)).

Section Str.
Context `{UnicodeData}.

Definition isalpha_char (c : Z) : bool :=
  if is_ascii c then ascii_isupper c || ascii_islower c else uni_isalpha c.

(** [s.isalpha()]: every character alphabetic and at least one character. *)
Definition isalpha (s : str) : bool :=
  match s with
  | [] => false
  | _ => forallb isalpha_char s
  end.

Definition upper_char (c : Z) : str :=
  if is_ascii c then [if ascii_islower c then c - 32 else c] else uni_upper c.

(** [s.upper()] maps every character by itself. *)
Definition upper (s : str) : str := s ≫= upper_char.

Definition lower_char (before : str) (c : Z) (after : str) : str :=
  if is_ascii c then [if ascii_isupper c then c + 32 else c]
  else uni_lower before c after.

Fixpoint lower_from (before s : str) : str :=
  match s with
  | [] => []
  | c :: after => lower_char before c after ++ lower_from (before ++ [c]) after
  end.

(** [s.lower()]. *)
Definition lower (s : str) : str := lower_from [] s.

Definition isspace_char (c : Z) : bool :=
  if is_ascii c then ascii_isspace c else uni_isspace c.

Fixpoint lstrip (s : str) : str :=
  match s with
  | [] => []
  | c :: rest => if isspace_char c then lstrip rest else s
  end.

(** [s.strip()]: white space removed at both ends. *)
Definition strip (s : str) : str := reverse (lstrip (reverse (lstrip s))).
End Str.

Global Arguments isalpha {_} s : simpl never.
Global Arguments upper {_} s : simpl never.
Global Arguments lower {_} s : simpl never.
Global Arguments strip {_} s : simpl never.

(** [ord(s)]: the code point of a one-character string. *)
Definition ord (s : str) : result Z :=
  match s with
  | [c] => Ok c
  | _ => Raise TypeError
  end.

(** [chr(i)]: the one-character string of a code point. *)
Definition chr (i : Z) : result str :=
  if (0 <=? i) && (i <=? 1114111) then Ok [i] else Raise ValueError.

(** [a % b] on integers, for a non-negative [b] (a length). *)
Definition mod_ (a b : Z) : result Z :=
  if b =? 0 then Raise ZeroDivisionError else Ok (a `mod` b).

(** [s[i]] for a non-negative index. *)
Definition index (s : str) (i : Z) : result str :=
  match s !! Z.to_nat i with
  | Some c => Ok [c]
  | None => Raise IndexError
  end.

(** [len(s)] *)
Definition len {A} (s : list A) : Z := Z.of_nat (length s).

(** [s.startswith(p)] *)
Fixpoint startswith (s p : str) {struct p} : bool :=
  match p, s with
  | [], _ => true
  | _ :: _, [] => false
  | a :: p', b :: s' => (a =? b) && startswith s' p'
  end.

(** [needle in haystack] on strings: a contiguous occurrence. *)
Fixpoint contains (haystack needle : str) : bool :=
  startswith haystack needle ||
  match haystack with
  | [] => false
  | _ :: rest => contains rest needle
  end.

(** [s.endswith(suffix)] *)
Definition endswith (s suffix : str) : bool :=
  startswith (reverse s) (reverse suffix).

(** An interpreter whose character tables stop at ASCII: every other code
    point is caseless, not a letter and not white space.  It serves to run
    the model on ASCII inputs, where the tables beyond are never consulted. *)
Definition ascii_tables : UnicodeData := {|
  uni_isalpha := λ _, false;
  uni_upper := λ c, [c];
  uni_lower := λ _ c _, [c];
  uni_isspace := λ _, false
|}.

End Py.

Import Py.

(** ** The decryption pipeline *)

(** [ord('A')] *)
Definition offset : Z := 65.

Section Cipher.
Context `{UnicodeData}.

(** The Caesar loop of [advanced_vigenere_decrypt], from the character it
    is at, with the string built so far. *)
Fixpoint caesar_loop (caesar_shift : Z) (chars : str) (caesar_decrypted : str)
    : result str :=
  match chars with
  | [] => Ok caesar_decrypted
  | char :: rest =>
      if isalpha [char] then
        u ← ord (upper [char]);
        let shifted := (u - offset - caesar_shift) `mod` 26 in
        ch ← chr (shifted + offset);
        caesar_loop caesar_shift rest (caesar_decrypted ++ ch)
      else
        caesar_loop caesar_shift rest (caesar_decrypted ++ [char])
  end.

(** The Vigenère loop, with the plaintext built so far and [key_index]. *)
Fixpoint vigenere_loop (key : str) (chars : str) (plaintext : str)
    (key_index : Z) : result str :=
  match chars with
  | [] => Ok plaintext
  | char :: rest =>
      if isalpha [char] then
        u ← ord (upper [char]);
        let c := u - offset in
        i ← mod_ key_index (len key);
        kc ← index key i;
        ko ← ord kc;
        let k := ko - offset in
        let p := (c - k) `mod` 26 in
        ch ← chr (p + offset);
        vigenere_loop key rest (plaintext ++ ch) (key_index + 1)
      else
        vigenere_loop key rest (plaintext ++ [char]) key_index
  end.

Definition caesar_stage (ciphertext : str) (caesar_shift : Z) : result str :=
  caesar_loop caesar_shift ciphertext [].

Definition vigenere_stage (caesar_decrypted key : str) : result str :=
  vigenere_loop (upper key) caesar_decrypted [] 0.

Definition advanced_vigenere_decrypt (ciphertext key : str) (caesar_shift : Z)
    : result str :=
  if bool_decide (ciphertext = []) || bool_decide (key = []) then Ok []
  else
    caesar_decrypted ← caesar_stage ciphertext caesar_shift;
    vigenere_stage caesar_decrypted key.
End Cipher.

(** ** The solution scorer *)

Definition success_indicators : list str :=
  lit <$> ["FLAG{"; "CTF{"; "ETERNA"; "GHOST"; "GIRATINA";
           "DISTORTION"; "WORLD"; "PLATINUM"; "SINNOH"]%string.

Definition pokemon_names : list str :=
  lit <$> ["GIRATINA"; "DIALGA"; "PALKIA"; "ARCEUS"; "DARKRAI";
           "CRESSELIA"; "ROTOM"; "SPIRITOMB"]%string.

Section Scorer.
Context `{UnicodeData}.

(** The first test of [check_solution_complexity]:
    [any(indicator in decrypted_text.upper() for indicator in ...)]. *)
Definition has_indicator (decrypted_text : str) : bool :=
  existsb (λ indicator, contains (upper decrypted_text) indicator)
          success_indicators.

(** The second test: [pokemon_key.upper() in pokemon_names]. *)
Definition key_allowed (pokemon_key : str) : bool :=
  bool_decide (upper pokemon_key ∈ pokemon_names).

(** The value of [score] when [check_solution_complexity] returns. *)
Definition solution_score (decrypted_text pokemon_key : str) : Z :=
  let score := 0 in
  let score := if has_indicator decrypted_text then score + 10 else score in
  let score := if key_allowed pokemon_key then score + 5 else score in
  score.

Definition check_solution_complexity (decrypted_text pokemon_key : str) : bool :=
  15 <=? solution_score decrypted_text pokemon_key.
End Scorer.

(** ** Reference encryption

    The source only decrypts.  The two encryptions below are the classical
    ciphers on the 26 letters as the documentation names them, the inverses
    the round-trip property is stated against: Vigenère under the
    upper-cased key, cycled over the letters of the text, then Caesar. *)

Definition latin_letter (c : Z) : bool := ascii_isupper c || ascii_islower c.
Definition latin_upper (c : Z) : Z := if ascii_islower c then c - 32 else c.

Definition caesar_encrypt_char (shift c : Z) : Z :=
  if latin_letter c then (latin_upper c - offset + shift) `mod` 26 + offset
  else c.

Definition caesar_encrypt (text : str) (shift : Z) : str :=
  caesar_encrypt_char shift <$> text.

(** The shift the key gives to the letter number [key_index] of the text. *)
Definition key_shift (key : str) (key_index : Z) : Z :=
  default 0 ((latin_upper <$> key) !! Z.to_nat (key_index `mod` len key)) - offset.

Fixpoint vigenere_encrypt_from (key text : str) (key_index : Z) : str :=
  match text with
  | [] => []
  | c :: rest =>
      if latin_letter c then
        ((latin_upper c - offset + key_shift key key_index) `mod` 26 + offset)
          :: vigenere_encrypt_from key rest (key_index + 1)
      else c :: vigenere_encrypt_from key rest key_index
  end.

Definition vigenere_encrypt (text key : str) : str :=
  vigenere_encrypt_from key text 0.

Definition reference_encrypt (text key : str) (shift : Z) : str :=
  caesar_encrypt (vigenere_encrypt text key) shift.

(** ** The bit-plane extractor *)

(** The array [wavfile.read] hands over for a file of 16-bit samples: one
    row of samples for a mono file, one row of channel samples per frame
    otherwise.  Files of other sample formats decode to arrays of other
    types, which are not modelled. *)
Inductive ndarray : Type :=
  | Mono (samples : list Z)
  | Frames (frames : list (list Z)).

(** A value stored in an [int16] array wraps around. *)
Definition wrap16 (z : Z) : Z := (z + 32768) `mod` 65536 - 32768.

(** [np.mean(row).astype(np.int16)] for one frame: the mean of 16-bit
    samples is computed in double precision, where the sum is exact and the
    quotient lies strictly between the same two integers as the exact one, so
    that the conversion, which drops the fraction, yields the exact quotient
    rounded toward zero.  A frame has at least one channel. *)
Definition mean_int16 (row : list Z) : Z :=
  wrap16 (Z.quot (foldr Z.add 0 row) (len row)).

(** The [data] that the loop of [extract_multi_lsb_audio] works on. *)
Definition to_mono (data : ndarray) : list Z :=
  match data with
  | Mono samples => samples
  | Frames frames => mean_int16 <$> frames
  end.

(** [x >> n] on Python integers raises on a negative count. *)
Definition rshift (x n : Z) : result Z :=
  if n <? 0 then Raise ValueError else Ok (Z.shiftr x n).

(** One sample of a layer: [(data >> bit_pos) & 1], then
    [(lsb_data * 2 - 1) * scale], then [astype(np.int16)]; every
    intermediate array is [int16]. *)
Definition hidden_sample (bit_pos scale x : Z) : Z :=
  let lsb_data := wrap16 (Z.land (wrap16 (Z.shiftr x bit_pos)) 1) in
  let hidden_audio := wrap16 (wrap16 (wrap16 (lsb_data * 2) - 1) * scale) in
  wrap16 hidden_audio.

(** The dictionary key [f'layer_{bit_pos}']. *)
Definition layer_key (bit_pos : Z) : string := "layer_" +:+ pretty bit_pos.

(** The loop over [bit_positions], with the dictionary built so far. *)
Fixpoint lsb_loop (data : list Z) (bit_positions : list Z)
    (layers : gmap string (list Z)) : result (gmap string (list Z)) :=
  match bit_positions with
  | [] => Ok layers
  | bit_pos :: rest =>
      scale ← rshift 16383 bit_pos;
      lsb_loop data rest
        (<[layer_key bit_pos := hidden_sample bit_pos scale <$> data]> layers)
  end.

Definition extract_multi_lsb_audio (data : ndarray) (bit_positions : list Z)
    : result (gmap string (list Z)) :=
  lsb_loop (to_mono data) bit_positions ∅.

(** ** The frequency fingerprint *)

(** Python's [float] and NumPy's [float64] are IEEE 754 doubles, the
    kernel's primitive [float]. *)

(** [float(z)] for an integer: the nearest double. *)
Definition float_of_Z (z : Z) : float :=
  SF2Prim (binary_normalize prec emax z 0 false).

(** [int(x)] on a double drops the fraction (rounds toward zero) and
    raises on an infinity or a NaN. *)
Definition int_of_float (x : float) : result Z :=
  match Prim2SF x with
  | S754_zero _ => Ok 0
  | S754_finite s m e =>
      Ok (if s then - Z.shiftl (Z.pos m) e else Z.shiftl (Z.pos m) e)
  | S754_infinity _ => Raise OverflowError
  | S754_nan => Raise ValueError
  end.

(** [a / b] on integers whose doubles are exact (sample rates are). *)
Definition true_div (a b : Z) : result float :=
  if b =? 0 then Raise ZeroDivisionError
  else Ok (float_of_Z a / float_of_Z b)%float.

(** An element of an array of doubles: a number in a one-dimensional array,
    a row in a two-dimensional one. *)
Inductive np_item : Type :=
  | Scalar (x : float)
  | Row (xs : list float).

(** [item * k] *)
Definition item_mul (item : np_item) (k : float) : np_item :=
  match item with
  | Scalar x => Scalar (x * k)%float
  | Row xs => Row ((λ x, (x * k)%float) <$> xs)
  end.

(** [int(item)]: a row of several numbers is no scalar; a row of one still
    converts. *)
Definition int_of_item (item : np_item) : result Z :=
  match item with
  | Scalar x => int_of_float x
  | Row [x] => int_of_float x
  | Row _ => Raise TypeError
  end.

(** [a[i]] for an index within the array. *)
Definition getitem {A} (a : list A) (i : nat) : result A :=
  match a !! i with
  | Some x => Ok x
  | None => Raise IndexError
  end.

(** [np.argmin] on doubles, after its loop: [mp] is the least value met so
    far and [min_ind] its index; a value replaces it unless it is at least
    [mp], so that a NaN does, and ends the search. *)
Fixpoint argmin_from (a : list float) (i : nat) (mp : float) (min_ind : nat)
    : nat :=
  match a with
  | [] => min_ind
  | x :: rest =>
      if negb (mp <=? x)%float
      then if is_nan x then i else argmin_from rest (S i) x i
      else argmin_from rest (S i) mp min_ind
  end.

Definition argmin (a : list float) : result nat :=
  match a with
  | [] => Raise ValueError
  | x :: rest => Ok (if is_nan x then 0%nat else argmin_from rest 1 x 0)
  end.

(** [len(data)]: the number of frames. *)
Definition ndarray_len (data : ndarray) : Z :=
  match data with
  | Mono samples => len samples
  | Frames frames => len frames
  end.

(** The two transforms NumPy and SciPy provide, with the shapes they
    document: [np.angle(fft(data))] has one entry per frame of [data], and
    [np.fft.fftfreq(n, d)] has [n] entries. *)
Class NumPy := {
  np_phase : ndarray → result (list np_item);
  np_fftfreq : Z → float → result (list float);
  np_phase_shape data phase :
    np_phase data = Ok phase → len phase = ndarray_len data;
  np_fftfreq_shape n d freq_bins :
    np_fftfreq n d = Ok freq_bins → len freq_bins = n
}.

Definition target_freqs : list Z := [440; 880; 1320; 1760].

(** [np.abs(freq_bins - freq)] *)
Definition distances (freq_bins : list float) (freq : Z) : list float :=
  (λ b, abs (b - float_of_Z freq)%float) <$> freq_bins.

(** The loop over [target_freqs], with [hidden_data] as built so far. *)
Fixpoint frequency_loop (phase : list np_item) (freq_bins : list float)
    (freqs : list Z) (hidden_data : list Z) : result (list Z) :=
  match freqs with
  | [] => Ok hidden_data
  | freq :: rest =>
      bin_idx ← argmin (distances freq_bins freq);
      if bool_decide (bin_idx < length phase)%nat then
        item ← getitem phase bin_idx;
        x ← int_of_item (item_mul item (float_of_Z 1000));
        let phase_int := x `mod` 2 in
        frequency_loop phase freq_bins rest (hidden_data ++ [phase_int])
      else frequency_loop phase freq_bins rest hidden_data
  end.

Section Frequency.
Context `{NumPy}.

(** The body of the [try] of [extract_frequency_domain_data]. *)
Definition frequency_body (data : ndarray) (sample_rate : Z) : result (list Z) :=
  phase ← np_phase data;
  d ← true_div 1 sample_rate;
  freq_bins ← np_fftfreq (ndarray_len data) d;
  frequency_loop phase freq_bins target_freqs [].

Definition extract_frequency_domain_data (data : ndarray) (sample_rate : Z)
    : list Z :=
  try_except (frequency_body data sample_rate) [0; 1; 0; 1].
End Frequency.

(** ** The cipher bundle *)

(** What [datetime.now()] reads off the wall clock. *)
Record datetime : Type := {
  year : Z; month : Z; day : Z;
  hour : Z; minute : Z; second : Z; microsecond : Z
}.

(** A reading of the clock: the hour is 0 to 23, and so on. *)
Definition valid_time (t : datetime) : Prop :=
  0 ≤ hour t ≤ 23 ∧ 0 ≤ minute t ≤ 59 ∧ 0 ≤ second t ≤ 59
  ∧ 0 ≤ microsecond t ≤ 999999.

(** [f"{x:02d}"]: decimal, padded with zeros to two characters. *)
Definition format_02d (x : Z) : str :=
  let digits := lit (pretty x) in
  replicate (2 - length digits)%nat 48 ++ digits.

(** The tags of the uploaded file as [mutagen] reports them: opening the
    file may raise, the file may carry no tags, and a tag holds a list of
    texts. *)
Abbreviation tags := (gmap string (list str)).

(** The loop over the four tag names, with the text gathered so far:
    [audio.tags[key][0]] raises on a tag without text. *)
Fixpoint gather_tags (audio_tags : tags) (keys : list string)
    (cipher_from_metadata : str) : result str :=
  match keys with
  | [] => Ok cipher_from_metadata
  | key :: rest =>
      match audio_tags !! key with
      | Some texts =>
          match texts with
          | text :: _ => gather_tags audio_tags rest (cipher_from_metadata ++ text)
          | [] => Raise IndexError
          end
      | None => gather_tags audio_tags rest cipher_from_metadata
      end
  end.

(** The dictionary literal that [extract_complex_metadata] starts from. *)
Definition initial_ciphers (now : datetime) : gmap string str :=
  <["quaternary" := lit "WLPH_VKLIW_" ++ format_02d (hour now `mod` 13)]>
  (<["tertiary" := lit "WLPH_EDVHG_HQFULSWLRQ"]>
  (<["secondary" := lit "FDHVDU_FLSKHU_ZLWK_NHBZRUG"]>
  (<["primary" := lit "NKOOR_IURP_JLUDWLQD_UHDOP"]> ∅))).

Definition extract_complex_metadata (now : datetime)
    (audio : result (option tags)) : gmap string str :=
  let ciphers := initial_ciphers now in
  try_except
    (audio_tags ← audio;
     match audio_tags with
     | Some audio_tags =>
         if bool_decide (audio_tags = ∅) then Ok ciphers
         else
           cipher_from_metadata ←
             gather_tags audio_tags ["TIT2"; "TALB"; "TPE1"; "TCON"]%string [];
           if bool_decide (cipher_from_metadata = []) then Ok ciphers
           else Ok (<["tertiary" := cipher_from_metadata]> ciphers)
     | None => Ok ciphers
     end)
    ciphers.

(** ** The request handlers *)

(** The JSON bodies the handlers answer with. *)
Inductive body : Type :=
  (** [{'error': message}] *)
  | ErrorBody (error : str)
  (** [{'error': f'Processing failed: {str(e)}'}] *)
  | ProcessingFailed (e : exn)
  | UploadBody (success : bool) (spectrograms ciphers : gmap string str)
      (frequency_data : list Z) (hint advanced_hint : str)
  | DecryptBody (success : bool) (decrypted_message : str)
      (congratulations : bool) (complexity_score hint : str)
  (** the framework's answer to an exception that no handler catches *)
  | Unhandled (e : exn).

Record response : Type := { status : Z; payload : body }.

(** What an upload request meets outside the program: the file as saved and
    decoded by [wavfile.read] (sample rate and samples), the images
    [generate_advanced_spectrogram] renders from a layer (a dictionary, empty
    strings on a rendering failure), the clock, the tags of the file, and
    [os.unlink]. *)
Record upload_env : Type := {
  env_wav : result (Z * ndarray);
  env_generate_advanced_spectrogram : list Z → Z → gmap string str;
  env_now : datetime;
  env_tags : result (option tags);
  env_unlink : result ()
}.

(** [d[k]] on a dictionary *)
Definition dict_get {V} (d : gmap string V) (k : string) : result V :=
  match d !! k with
  | Some v => Ok v
  | None => Raise KeyError
  end.

Section Handlers.
Context `{UnicodeData} `{NumPy}.

(** The [try] block of [upload_file] with the [return] that follows it. *)
Definition upload_processing (env : upload_env) : response :=
  let processed :=
    wav ← env_wav env;
    let '(sample_rate, data) := wav in
    lsb_layers ← extract_multi_lsb_audio data [0; 1; 2];
    let freq_data := extract_frequency_domain_data data sample_rate in
    layer_0 ← dict_get lsb_layers "layer_0";
    let spectrograms :=
      env_generate_advanced_spectrogram env layer_0 sample_rate in
    let ciphers := extract_complex_metadata (env_now env) (env_tags env) in
    _ ← env_unlink env;
    Ok (UploadBody true spectrograms ciphers freq_data
          (lit "Multiple layers detected. Analyze ALL spectrograms and consider time-based elements.")
          (lit "Some ciphers use multi-stage decryption. Current time may be relevant."))
  in
  match processed with
  | Ok answer => {| status := 200; payload := answer |}
  | Raise e => {| status := 500; payload := ProcessingFailed e |}
  end.

(** [upload_file]; [audiofile] is the file name of the form field of that
    name, if the request has one. *)
Definition upload_file (audiofile : option str) (env : upload_env) : response :=
  match audiofile with
  | None => {| status := 400; payload := ErrorBody (lit "No file uploaded") |}
  | Some filename =>
      if bool_decide (filename = []) then
        {| status := 400; payload := ErrorBody (lit "No file selected") |}
      else if negb (endswith (lower filename) (lit ".wav")) then
        {| status := 400; payload := ErrorBody (lit "Only WAV files are accepted") |}
      else upload_processing env
  end.
End Handlers.

(** The JSON object posted to [/decrypt]: each field may be absent; the
    texts are strings and the shift is what [int] makes of the field, when it
    makes an integer of it ([posted_request] below has the other case). *)
Record decrypt_request : Type := {
  req_cipher_type : option str;
  req_cipher_text : option str;
  req_key : option str;
  req_caesar_shift : option Z
}.

Section Decrypt.
Context `{UnicodeData}.

Definition decrypt_cipher (data : decrypt_request) : response :=
  let cipher_type := default (lit "primary") (req_cipher_type data) in
  let cipher_text := default [] (req_cipher_text data) in
  let key := upper (strip (default [] (req_key data))) in
  let caesar_shift := default 3 (req_caesar_shift data) in
  if bool_decide (cipher_text = []) || bool_decide (key = []) then
    {| status := 400; payload := ErrorBody (lit "Missing cipher text or key") |}
  else
    match advanced_vigenere_decrypt cipher_text key caesar_shift with
    | Raise e => {| status := 500; payload := Unhandled e |}
    | Ok decrypted =>
        let success := check_solution_complexity decrypted key in
        {| status := 200;
           payload :=
             DecryptBody true decrypted success
               (if success then lit "High" else lit "Partial")
               (if negb success
                then lit "Try different cipher types and Caesar shifts if unsuccessful."
                else []) |}
    end.
End Decrypt.

(** The JSON object posted to [/decrypt] before [int] has seen the field
    [caesar_shift]: the field is absent, or [int] makes an integer of it, or
    [int] raises on it (a [ValueError] on a text that is no number, a
    [TypeError] on a null). *)
Record posted_request : Type := {
  posted_cipher_type : option str;
  posted_cipher_text : option str;
  posted_key : option str;
  posted_caesar_shift : option (result Z)
}.

Section DecryptPosted.
Context `{UnicodeData}.

(** [decrypt_cipher] from its first line: [int(data.get('caesar_shift', 3))]
    stands before the check of the cipher text and the key and in no [try],
    so that what it raises goes to the framework; with the integer the
    handler goes on as [decrypt_cipher] above. *)
Definition decrypt_cipher_posted (data : posted_request) : response :=
  match default (Ok 3) (posted_caesar_shift data) with
  | Raise e => {| status := 500; payload := Unhandled e |}
  | Ok caesar_shift =>
      decrypt_cipher {| req_cipher_type := posted_cipher_type data;
                        req_cipher_text := posted_cipher_text data;
                        req_key := posted_key data;
                        req_caesar_shift := Some caesar_shift |}
  end.
End DecryptPosted.

(** ** The image renderer *)

(** [a[:stop]]: a negative [stop] counts from the end. *)
Definition slice_to {A} (a : list A) (stop : Z) : list A :=
  if 0 <=? stop then take (Z.to_nat stop) a
  else take (Z.to_nat (len a + stop)) a.

(** What Matplotlib does for [generate_advanced_spectrogram]: the
    spectrogram of the samples at a rate, with a colour map, a window and an
    overlap, drawn on a new figure and saved as a PNG in base 64; and the line
    plot of phase angles, likewise.  Either may raise. *)
Class Matplotlib := {
  specgram_png : list Z → Z → string → Z → Z → result str;
  plot_png : list np_item → result str
}.

(** The dictionary of the [except] branch. *)
Definition no_spectrograms : gmap string str :=
  <["phase" := []]> (<["high_res" := []]> (<["primary" := []]> ∅)).

Section Renderer.
Context `{NumPy} `{Matplotlib}.

Definition generate_advanced_spectrogram (audio_data : list Z) (sample_rate : Z)
    : gmap string str :=
  try_except
    (let max_length := Z.min (len audio_data) (sample_rate * 30) in
     let audio_data := slice_to audio_data max_length in
     primary ← specgram_png audio_data sample_rate "plasma" 1024 512;
     let spectrograms := <["primary" := primary]> ∅ in
     high_res ← specgram_png audio_data sample_rate "viridis" 2048 1024;
     let spectrograms := <["high_res" := high_res]> spectrograms in
     phase ←
       np_phase (Mono (slice_to audio_data (Z.min (len audio_data) 50000)));
     image ← plot_png (slice_to phase 1000);
     Ok (<["phase" := image]> spectrograms))
    no_spectrograms.
End Renderer.

(** ** The calls of [upload_file] on the temporary file *)

(** Two calls of the [try] block act on the temporary file, once it exists:
    saving the upload into it and decoding it, and unlinking it. *)
Inductive io_event : Type :=
  | SaveAndDecode
  | UnlinkTemp.

Global Instance io_event_eq_dec : EqDecision io_event.
Proof. solve_decision. Defined.

Section UploadTrace.
Context `{NumPy}.

(** The [try] block of [upload_file] again, with the calls it makes on the
    temporary file, in their order, beside its answer. *)
Definition upload_processing_io (env : upload_env)
    : list io_event * response :=
  match env_wav env with
  | Raise e => ([SaveAndDecode], {| status := 500; payload := ProcessingFailed e |})
  | Ok (sample_rate, data) =>
      match extract_multi_lsb_audio data [0; 1; 2] with
      | Raise e =>
          ([SaveAndDecode], {| status := 500; payload := ProcessingFailed e |})
      | Ok lsb_layers =>
          let freq_data := extract_frequency_domain_data data sample_rate in
          match dict_get lsb_layers "layer_0" with
          | Raise e =>
              ([SaveAndDecode],
               {| status := 500; payload := ProcessingFailed e |})
          | Ok layer_0 =>
              let spectrograms :=
                env_generate_advanced_spectrogram env layer_0 sample_rate in
              let ciphers :=
                extract_complex_metadata (env_now env) (env_tags env) in
              match env_unlink env with
              | Raise e =>
                  ([SaveAndDecode; UnlinkTemp],
                   {| status := 500; payload := ProcessingFailed e |})
              | Ok _ =>
                  ([SaveAndDecode; UnlinkTemp],
                   {| status := 200;
                      payload :=
                        UploadBody true spectrograms ciphers freq_data
                          (lit "Multiple layers detected. Analyze ALL spectrograms and consider time-based elements.")
                          (lit "Some ciphers use multi-stage decryption. Current time may be relevant.") |})
              end
          end
      end
  end.
End UploadTrace.


(** ** Vocabulary of the statements *)

Section Vocabulary.
Context `{UnicodeData}.

(** The number of alphabetic characters of [text] before position [i]: the
    rank, among the letters, of the character at position [i]. *)
Definition alpha_rank (text : str) (i : nat) : Z :=
  len (filter (λ c, Is_true (isalpha [c])) (take i text)).

(** A character the two loops can handle: if it is alphabetic, its upper
    case is one character, so that [ord(char.upper())] is defined. *)
Definition upper_is_char (c : Z) : Prop :=
  isalpha [c] = true → ∃ u, upper [c] = [u].

(** What the Caesar loop writes at the place of [c]. *)
Definition caesar_step (caesar_shift c m : Z) : Prop :=
  if isalpha [c]
  then ∃ u, ord (upper [c]) = Ok u ∧ m = (u - offset - caesar_shift) `mod` 26 + offset
  else m = c.

(** What the Vigenère loop writes at the place of the character [c] that
    stands at position [i] of its input, having started at [key_index]. *)
Definition vigenere_writes (key chars : str) (key_index : Z) (i : nat)
    (c p : Z) : Prop :=
  if isalpha [c]
  then ∃ u kch,
         ord (upper [c]) = Ok u
         ∧ key !! Z.to_nat ((key_index + alpha_rank chars i) `mod` len key)
           = Some kch
         ∧ p = (u - offset - (kch - offset)) `mod` 26 + offset
  else p = c.
End Vocabulary.

(** The quaternary field of the bundle built at [now]. *)
Definition quaternary (now : datetime) (audio : result (option tags)) : option str :=
  extract_complex_metadata now audio !! "quaternary".

(** The quaternary field as the documentation words it: the prefix, then
    the hour on two digits. *)
Definition quaternary_as_documented (now : datetime) : str :=
  lit "WLPH_VKLIW_" ++ format_02d (hour now).

(** [i] is the first index of a least value of [a], in the order of the
    doubles. *)
Definition first_minimum (a : list float) (i : nat) : Prop :=
  ∃ x, a !! i = Some x
    ∧ (∀ j y, a !! j = Some y → (x <=? y)%float = true)
    ∧ (∀ j y, (j < i)%nat → a !! j = Some y → (x <? y)%float = true).

(** [math.floor(x)] on a double, the rounding the documentation names. *)
Definition floor_of_float (x : float) : result Z :=
  match Prim2SF x with
  | S754_zero _ => Ok 0
  | S754_finite s m e => Ok (Z.shiftl (if s then Z.neg m else Z.pos m) e)
  | S754_infinity _ => Raise OverflowError
  | S754_nan => Raise ValueError
  end.

(** The value the documentation gives for a phase angle [p]:
    [floor(p * 1000) mod 2]. *)
Definition phase_bit_as_documented (p : float) : result Z :=
  f ← floor_of_float (p * float_of_Z 1000)%float;
  Ok (f `mod` 2).

(** The value the code computes for a phase angle [p]:
    [int(p * 1000) % 2]. *)
Definition phase_bit (p : float) : result Z :=
  x ← int_of_float (p * float_of_Z 1000)%float;
  Ok (x `mod` 2).

(** A phase entry that is a number with an integer part: a scalar [p] for
    which [int(p * 1000)] is defined. *)
Definition phase_number (item : np_item) : Prop :=
  ∃ p z, item = Scalar p ∧ int_of_float (p * float_of_Z 1000)%float = Ok z.

(** What the loop appends for the target frequency [freq]: the bit of the
    phase at the first bin nearest to [freq]. *)
Definition bit_at_nearest_bin (phase : list np_item) (freq_bins : list float)
    (freq b : Z) : Prop :=
  ∃ bin p,
    first_minimum (distances freq_bins freq) bin
    ∧ phase !! bin = Some (Scalar p)
    ∧ phase_bit p = Ok b.

(** The same with the value the documentation gives. *)
Definition documented_bit_at_nearest_bin (phase : list np_item)
    (freq_bins : list float) (freq b : Z) : Prop :=
  ∃ bin p,
    first_minimum (distances freq_bins freq) bin
    ∧ phase !! bin = Some (Scalar p)
    ∧ phase_bit_as_documented p = Ok b.

(** [np.fft.fftfreq(n, d)] as NumPy's reference implementation computes it:
    the integers [0 .. (n-1)//2] and [-(n//2) .. -1], each times
    [1.0 / (n * d)]. *)
Definition reference_fftfreq (n : Z) (d : float) : result (list float) :=
  if n <? 0 then Raise ValueError
  else
    let nd := (float_of_Z n * d)%float in
    if (nd =? 0)%float then Raise ZeroDivisionError
    else
      let val := (1 / nd)%float in
      let results := seqZ 0 ((n - 1) `div` 2 + 1) ++ seqZ (- (n `div` 2)) (n `div` 2) in
      Ok ((λ k, (float_of_Z k * val)%float) <$> results).

Global Instance ndarray_eq_dec : EqDecision ndarray.
Proof. solve_decision. Defined.

(** The signal 0, 1, 0, 0: its transform is 1, -i, -1, i, with the phase
    angles 0, -pi/2, pi, pi/2. *)
Definition impulse : ndarray := Mono [0; 1; 0; 0].

Definition impulse_phase : list np_item :=
  [Scalar 0; Scalar (-0x1.921fb54442d18p+0); Scalar 0x1.921fb54442d18p+1;
   Scalar 0x1.921fb54442d18p+0].

Definition impulse_np_phase (data : ndarray) : result (list np_item) :=
  if decide (data = impulse) then Ok impulse_phase else Raise LibraryError.

(** 13:00 on some day. *)
Definition one_pm : datetime :=
  {| year := 2025; month := 6; day := 1;
     hour := 13; minute := 0; second := 0; microsecond := 0 |}.

(** A NumPy that knows the transform of the one signal [impulse], with the
    reference frequency axis. *)
Definition impulse_numpy : NumPy.
Proof.
  refine {| np_phase := impulse_np_phase; np_fftfreq := reference_fftfreq |}.
  - intros data phase. unfold impulse_np_phase.
    destruct (decide (data = impulse)) as [-> |]; [|done]. by intros [= <-].
  - intros n d freq_bins. unfold reference_fftfreq.
    destruct (n <? 0) eqn:Hn; [done|].
    destruct (_ =? _)%float; [done|]. intros [= <-].
    unfold len. rewrite length_fmap, length_app, !length_seqZ.
    pose proof (Z.div_mod n 2 ltac:(lia)).
    pose proof (Z.div_mod (n - 1) 2 ltac:(lia)).
    pose proof (Z.mod_pos_bound n 2 ltac:(lia)).
    pose proof (Z.mod_pos_bound (n - 1) 2 ltac:(lia)).
    lia.
Defined.

(** An upload whose file decodes to [impulse] at 1760 Hz, without tags and
    without images. *)
Definition impulse_upload : upload_env := {|
  env_wav := Ok (1760, impulse);
  env_generate_advanced_spectrogram := λ _ _, ∅;
  env_now := one_pm;
  env_tags := Ok None;
  env_unlink := Ok ()
|}.

(** A request that decrypts but does not win. *)
Definition sample_request : decrypt_request := {|
  req_cipher_type := None;
  req_cipher_text := Some (lit "de-FG!");
  req_key := Some (lit " xy ");
  req_caesar_shift := None
|}.

Section MoreVocabulary.
Context `{UnicodeData}.

(** A letter the loops cannot handle: its upper case is not one character,
    so that [ord(char.upper())] raises. *)
Definition bad_letter (c : Z) : Prop :=
  isalpha [c] = true ∧ ∀ u, upper [c] ≠ [u].

(** What the whole decryption leaves at the place of [c]: a capital Latin
    letter for a letter, the character itself otherwise. *)
Definition decrypted_char (c o : Z) : Prop :=
  if isalpha [c] then 65 ≤ o ≤ 90 else o = c.
End MoreVocabulary.


(** A phase entry of a signal with several channels: a row of two numbers
    at least. *)
Definition wide_row (item : np_item) : Prop :=
  ∃ xs, item = Row xs ∧ (2 ≤ length xs)%nat.


(** The four tags [extract_complex_metadata] reads, in its order. *)
Definition tag_keys : list string := ["TIT2"; "TALB"; "TPE1"; "TCON"].

(** The first text of a tag, if the file has the tag and the tag a text. *)
Definition tag_text (audio_tags : tags) (key : string) : option str :=
  audio_tags !! key ≫= head.

(** The first texts of the four tags that the file has, one after the
    other. *)
Definition metadata_text (audio_tags : tags) : str :=
  concat (omap (tag_text audio_tags) tag_keys).

(** A tag that the file has, but without any text. *)
Definition textless (audio_tags : tags) (key : string) : Prop :=
  audio_tags !! key = Some [].

Global Instance textless_dec (audio_tags : tags) (key : string) :
  Decision (textless audio_tags key).
Proof. unfold textless. apply _. Defined.

(** The tertiary field of the bundle, and the literal it starts from. *)
Definition tertiary (now : datetime) (audio : result (option tags)) : option str :=
  extract_complex_metadata now audio !! "tertiary".

Definition default_tertiary : str := lit "WLPH_EDVHG_HQFULSWLRQ".


(** The layer of bit 0 of the mono mix: 16383 for an odd sample, -16383 for
    an even one. *)
Definition parity_layer (data : ndarray) : list Z :=
  (λ x, if Z.odd x then 16383 else -16383) <$> to_mono data.


(** An array as [wavfile.read] returns it for a file of 16-bit samples:
    every sample is a 16-bit value, and a frame has a channel at least. *)
Definition int16_array (data : ndarray) : Prop :=
  match data with
  | Mono samples => Forall (λ x, -32768 ≤ x ≤ 32767) samples
  | Frames frames =>
      Forall (λ row, row ≠ [] ∧ Forall (λ x, -32768 ≤ x ≤ 32767) row) frames
  end.

(** The upload is a file of 16-bit samples: what it decodes to, when it
    decodes, is such an array.  A file of another sample format decodes to
    an array of another type (floating point, 8 or 32 bits), on which the
    extraction may raise; the statements on [upload_file] leave such files
    out. *)
Definition sixteen_bit_upload (env : upload_env) : Prop :=
  ∀ sample_rate data, env_wav env = Ok (sample_rate, data) → int16_array data.


(** Character tables that know one letter beyond ASCII, the sharp s
    (code point 223), whose upper case is the two letters SS. *)
Definition sharp_s_tables : UnicodeData := {|
  uni_isalpha := λ c, c =? 223;
  uni_upper := λ c, if c =? 223 then [83; 83] else [c];
  uni_lower := λ _ c _, [c];
  uni_isspace := λ _, false
|}.

(** One frame of two channels, 1 and 1: the transform runs along the
    channels and gives 2 and 0, with the phase angles 0 and 0. *)
Definition stereo_frame : ndarray := Frames [[1; 1]].

(** A NumPy that knows the transform of the one signal [stereo_frame], with
    the reference frequency axis. *)
Definition stereo_numpy : NumPy.
Proof.
  refine {| np_phase := λ data,
              if decide (data = stereo_frame) then Ok [Row [0; 0]%float]
              else Raise LibraryError;
            np_fftfreq := reference_fftfreq;
            np_fftfreq_shape := np_fftfreq_shape (NumPy := impulse_numpy) |}.
  intros data phase.
  destruct (decide (data = stereo_frame)) as [-> |]; [|done]. by intros [= <-].
Defined.

(** A Matplotlib that draws nothing: its images are the number of values it
    was given, in decimal. *)
Definition counting_matplotlib : Matplotlib := {|
  specgram_png := λ audio_data _ _ _ _, Ok (lit (pretty (len audio_data)));
  plot_png := λ phase, Ok (lit (pretty (len phase)))
|}.


(** * Properties *)

(** ** Exceptions *)

Lemma bind_Ok {A B} (m : result A) (f : A → result B) (b : B) :
  m ≫= f = Ok b → ∃ a, m = Ok a ∧ f a = Ok b.
Proof. destruct m as [a|e]; [eauto | done]. Qed.

(** ** Strings *)

Lemma startswith_spec (s p : str) :
  startswith s p = true ↔ ∃ rest, s = p ++ rest.
Proof.
  revert s. induction p as [|a p IH]; intros s; simpl.
  - split; [by exists s | done].
  - destruct s as [|b s]; simpl.
    + split; [done | intros [rest Hrest]; discriminate].
    + rewrite andb_true_iff, Z.eqb_eq, IH. split.
      * intros [-> [rest ->]]. eauto.
      * intros [rest Hrest]. injection Hrest as -> ->. eauto.
Qed.

(** [needle in haystack] holds exactly when the needle occurs in one piece. *)
Lemma contains_spec (haystack needle : str) :
  contains haystack needle = true ↔
  ∃ before after, haystack = before ++ needle ++ after.
Proof.
  induction haystack as [|c h IH]; simpl.
  - rewrite orb_false_r, startswith_spec. split.
    + intros [rest ->]. exists [], rest. done.
    + intros [before [after Heq]]. symmetry in Heq.
      apply app_eq_nil in Heq as [-> Heq]. exists after. by rewrite Heq.
  - rewrite orb_true_iff, startswith_spec, IH. split.
    + intros [[rest ->] | [before [after ->]]].
      * exists [], rest. done.
      * exists (c :: before), after. done.
    + intros [[|b before] [after Heq]]; simpl in Heq.
      * left. eauto.
      * right. injection Heq as -> ->. eauto.
Qed.

Lemma endswith_spec (s suffix : str) :
  endswith s suffix = true ↔ ∃ front, s = front ++ suffix.
Proof.
  unfold endswith. rewrite startswith_spec. split.
  - intros [rest Hrest]. exists (reverse rest).
    apply (inj reverse). by rewrite Hrest, reverse_app, reverse_involutive.
  - intros [front ->]. exists (reverse front). by rewrite reverse_app.
Qed.

(** ** The decryption pipeline *)

Section CipherProps.
Context `{UnicodeData}.

Lemma isalpha_single (c : Z) : isalpha [c] = isalpha_char c.
Proof. unfold isalpha. simpl. apply andb_true_r. Qed.

Lemma upper_single (c : Z) : upper [c] = upper_char c.
Proof. unfold upper. simpl. apply app_nil_r. Qed.

Lemma chr_letter (x : Z) : chr (x `mod` 26 + offset) = Ok [x `mod` 26 + offset].
Proof.
  unfold chr, offset.
  pose proof (Z.mod_pos_bound x 26 ltac:(lia)).
  rewrite andb_true_intro; [done | split; lia].
Qed.

Lemma caesar_loop_shift_period (s : Z) (chars acc : str) :
  caesar_loop (s + 26) chars acc = caesar_loop s chars acc.
Proof.
  revert acc. induction chars as [|c rest IH]; intros acc; simpl; [done|].
  destruct (isalpha [c]); [|apply IH].
  destruct (ord (upper [c])) as [u|e]; simpl; [|done].
  replace (u - offset - (s + 26)) with (u - offset - s + (-1) * 26) by lia.
  rewrite Z.mod_add by lia.
  destruct (chr _); simpl; [apply IH | done].
Qed.

(** C8. The Caesar shift only matters modulo 26: shifting by [s + 26]
    decrypts every ciphertext, under every key, to exactly what shifting by
    [s] does (the same text, or the same exception), for negative [s] too. *)
Theorem decrypt_shift_mod_26 (ciphertext key : str) (s : Z) :
  advanced_vigenere_decrypt ciphertext key s
  = advanced_vigenere_decrypt ciphertext key (s + 26).
Proof.
  unfold advanced_vigenere_decrypt, caesar_stage.
  by rewrite caesar_loop_shift_period.
Qed.

End CipherProps.

(** ** The solution scorer *)

Section ScorerProps.
Context `{UnicodeData}.

(** The first test passes exactly when the upper-cased text holds one of the
    success substrings. *)
Lemma has_indicator_spec (decrypted_text : str) :
  has_indicator decrypted_text = true ↔
  ∃ indicator before after,
    indicator ∈ success_indicators ∧
    upper decrypted_text = before ++ indicator ++ after.
Proof.
  unfold has_indicator. rewrite existsb_exists. split.
  - intros [indicator [Hin Hsub]]. apply contains_spec in Hsub as (b & a & Hsub).
    exists indicator, b, a. by rewrite <- list_elem_of_In in Hin.
  - intros (indicator & b & a & Hin & Hsub). exists indicator.
    rewrite <- list_elem_of_In. split; [done|]. apply contains_spec. eauto.
Qed.

Lemma key_allowed_spec (pokemon_key : str) :
  key_allowed pokemon_key = true ↔ upper pokemon_key ∈ pokemon_names.
Proof. unfold key_allowed. apply bool_decide_eq_true. Qed.

(** C1. The score is 10 for a success substring in the upper-cased text plus
    5 for an upper-cased key among the allowed keys, and the verdict (score at
    least 15) holds exactly when both tests pass: neither alone suffices. *)
Theorem check_solution_complexity_iff (decrypted_text pokemon_key : str) :
  solution_score decrypted_text pokemon_key
  = (if has_indicator decrypted_text then 10 else 0)
    + (if key_allowed pokemon_key then 5 else 0)
  ∧ (check_solution_complexity decrypted_text pokemon_key = true ↔
     (∃ indicator before after,
        indicator ∈ success_indicators ∧
        upper decrypted_text = before ++ indicator ++ after)
     ∧ upper pokemon_key ∈ pokemon_names).
Proof.
  rewrite <- has_indicator_spec, <- key_allowed_spec.
  unfold check_solution_complexity, solution_score.
  destruct (has_indicator decrypted_text), (key_allowed pokemon_key);
    simpl; (split; [done|]); rewrite ?Z.leb_le; intuition (done || lia).
Qed.

(** The three scoring cases the documentation lists. *)
Example score_giratina_giratina :
  check_solution_complexity (lit "the giratina realm") (lit "GIRATINA") = true.
Proof. reflexivity. Qed.

Example score_giratina_pikachu :
  check_solution_complexity (lit "the giratina realm") (lit "PIKACHU") = false.
Proof. reflexivity. Qed.

Example score_nothing_arceus :
  check_solution_complexity (lit "nothing to see") (lit "ARCEUS") = false.
Proof. reflexivity. Qed.

End ScorerProps.

(** ** The two stages, position by position *)

Section StageProps.
Context `{UnicodeData}.

(** The letters the loops write are capital Latin letters. *)
Lemma written_letter (x : Z) :
  isalpha [x `mod` 26 + offset] = true
  ∧ upper [x `mod` 26 + offset] = [x `mod` 26 + offset].
Proof.
  pose proof (Z.mod_pos_bound x 26 ltac:(lia)) as Hx. unfold offset.
  rewrite isalpha_single, upper_single.
  unfold isalpha_char, upper_char, is_ascii, ascii_isupper, ascii_islower.
  replace (x `mod` 26 + 65 <? 128) with true by lia.
  replace (65 <=? x `mod` 26 + 65) with true by lia.
  replace (x `mod` 26 + 65 <=? 90) with true by lia.
  replace (97 <=? x `mod` 26 + 65) with false by lia.
  done.
Qed.

Lemma caesar_step_isalpha (s c m : Z) :
  caesar_step s c m → isalpha [m] = isalpha [c].
Proof.
  unfold caesar_step. destruct (isalpha [c]) eqn:Hc.
  - intros (u & _ & ->). apply written_letter.
  - by intros ->.
Qed.

Lemma caesar_loop_inv (s : Z) (chars acc out : str) :
  caesar_loop s chars acc = Ok out →
  ∃ mid, out = acc ++ mid ∧ Forall2 (caesar_step s) chars mid.
Proof.
  revert acc. induction chars as [|c rest IH]; intros acc; simpl.
  - intros [= <-]. exists []. by rewrite app_nil_r.
  - destruct (isalpha [c]) eqn:Hc.
    + destruct (ord (upper [c])) as [u|e] eqn:Hu; simpl; [|done].
      rewrite chr_letter. simpl. intros Hrest.
      apply IH in Hrest as (mid & -> & Hmid).
      exists (((u - offset - s) `mod` 26 + offset) :: mid).
      split; [by rewrite <- app_assoc|].
      constructor; [|done]. unfold caesar_step. rewrite Hc. eauto.
    + intros Hrest. apply IH in Hrest as (mid & -> & Hmid).
      exists (c :: mid). split; [by rewrite <- app_assoc|].
      constructor; [|done]. unfold caesar_step. by rewrite Hc.
Qed.

Lemma caesar_loop_total (s : Z) (chars acc : str) :
  Forall upper_is_char chars → ∃ out, caesar_loop s chars acc = Ok out.
Proof.
  intros Hchars. revert acc.
  induction Hchars as [|c rest Hc _ IH]; intros acc; simpl; [eauto|].
  destruct (isalpha [c]) eqn:Halpha; [|apply IH].
  destruct (Hc Halpha) as [u ->]. simpl. rewrite chr_letter. simpl. apply IH.
Qed.

Lemma alpha_rank_0 (text : str) : alpha_rank text 0 = 0.
Proof. done. Qed.

Lemma alpha_rank_S (c : Z) (text : str) (i : nat) :
  alpha_rank (c :: text) (S i)
  = (if isalpha [c] then 1 else 0) + alpha_rank text i.
Proof.
  unfold alpha_rank, len. simpl. rewrite filter_cons.
  destruct (decide (Is_true (isalpha [c]))) as [Hc | Hc]; simpl.
  - apply Is_true_true in Hc. rewrite Hc. lia.
  - apply Is_true_false in Hc. rewrite Hc. lia.
Qed.

Lemma alpha_rank_nonneg (text : str) (i : nat) : 0 ≤ alpha_rank text i.
Proof. unfold alpha_rank, len. lia. Qed.

(** The Caesar stage keeps the letters where they are, so the ranks too. *)
Lemma alpha_rank_caesar (s : Z) (chars mid : str) (i : nat) :
  Forall2 (caesar_step s) chars mid → alpha_rank mid i = alpha_rank chars i.
Proof.
  intros Hstep. revert i.
  induction Hstep as [|c m chars mid Hcm _ IH]; intros [|i]; try done.
  rewrite !alpha_rank_S, IH. by rewrite (caesar_step_isalpha _ _ _ Hcm).
Qed.

Lemma vigenere_loop_inv (key chars acc : str) (key_index : Z) (out : str) :
  vigenere_loop key chars acc key_index = Ok out →
  ∃ res, out = acc ++ res ∧ length res = length chars
    ∧ ∀ i c, chars !! i = Some c →
        ∃ p, res !! i = Some p ∧ vigenere_writes key chars key_index i c p.
Proof.
  revert acc key_index. induction chars as [|c rest IH]; intros acc ki; simpl.
  - intros [= <-]. exists []. by rewrite app_nil_r.
  - destruct (isalpha [c]) eqn:Hc.
    + destruct (ord (upper [c])) as [u|e] eqn:Hu; simpl; [|done].
      unfold mod_. destruct (len key =? 0) eqn:Hlen; simpl; [done|].
      unfold index.
      destruct (key !! Z.to_nat (ki `mod` len key)) as [kch|] eqn:Hk;
        simpl; [|done].
      rewrite chr_letter. simpl. intros Hrest.
      apply IH in Hrest as (res & -> & Hlenres & Hres).
      exists (((u - offset - (kch - offset)) `mod` 26 + offset) :: res).
      split; [by rewrite <- app_assoc|]. split; [simpl; lia|].
      intros [|i] c' Hi; simpl in Hi.
      * injection Hi as <-. eexists; split; [done|].
        unfold vigenere_writes. rewrite Hc, alpha_rank_0, Z.add_0_r. eauto.
      * destruct (Hres i c' Hi) as (p & Hp & Hw). exists p. split; [done|].
        unfold vigenere_writes in *. rewrite alpha_rank_S, Hc.
        destruct (isalpha [c']); [|done].
        by replace (ki + (1 + alpha_rank rest i))
          with (ki + 1 + alpha_rank rest i) by lia.
    + intros Hrest. apply IH in Hrest as (res & -> & Hlenres & Hres).
      exists (c :: res). split; [by rewrite <- app_assoc|].
      split; [simpl; lia|].
      intros [|i] c' Hi; simpl in Hi.
      * injection Hi as <-. eexists; split; [done|].
        unfold vigenere_writes. by rewrite Hc.
      * destruct (Hres i c' Hi) as (p & Hp & Hw). exists p. split; [done|].
        unfold vigenere_writes in *. by rewrite alpha_rank_S, Hc, Z.add_0_l.
Qed.

Lemma vigenere_loop_total (key chars acc : str) (key_index : Z) :
  key ≠ [] → Forall upper_is_char chars →
  ∃ out, vigenere_loop key chars acc key_index = Ok out.
Proof.
  intros Hkey Hchars. revert acc key_index.
  induction Hchars as [|c rest Hc _ IH]; intros acc ki; simpl; [eauto|].
  destruct (isalpha [c]) eqn:Halpha; [|apply IH].
  destruct (Hc Halpha) as [u ->]. simpl.
  assert (0 < len key) as Hlen.
  { unfold len. destruct key; [done | simpl; lia]. }
  unfold mod_. replace (len key =? 0) with false by lia. simpl.
  pose proof (Z.mod_pos_bound ki (len key) Hlen) as Hbound.
  unfold index.
  destruct (lookup_lt_is_Some_2 key (Z.to_nat (ki `mod` len key))) as [kch ->].
  { unfold len in *. lia. }
  simpl. rewrite chr_letter. simpl. apply IH.
Qed.

End StageProps.

Section DecryptProps.
Context `{UnicodeData}.

Lemma caesar_output_upper_is_char (s : Z) (chars mid : str) :
  Forall2 (caesar_step s) chars mid → Forall upper_is_char mid.
Proof.
  induction 1 as [|c m chars mid Hcm _ IH]; constructor; [|done].
  unfold caesar_step in Hcm. intros Hm. destruct (isalpha [c]) eqn:Hc.
  - destruct Hcm as (u & _ & ->). eexists. apply written_letter.
  - subst m. congruence.
Qed.

(** C3. Whenever [advanced_vigenere_decrypt] runs its two stages (a key
    that is not empty), every non-alphabetic character of the ciphertext
    stands unchanged at its position in the output of the Caesar stage and of
    the Vigenère stage, and the Vigenère stage takes, for the character that
    is the n-th letter of the text (letters counted from 0, other characters
    not counted), the character at position n mod length of the upper-cased
    key.  The stages do return when every letter has a one-character upper
    case, which is so for every ASCII text. *)
Theorem decrypt_non_alpha_pass_through
    (ciphertext key : str) (caesar_shift : Z) :
  key ≠ [] →
  (Forall upper_is_char ciphertext → upper key ≠ [] →
   ∃ out, advanced_vigenere_decrypt ciphertext key caesar_shift = Ok out)
  ∧ ∀ out, advanced_vigenere_decrypt ciphertext key caesar_shift = Ok out →
      ∃ mid,
        caesar_stage ciphertext caesar_shift = Ok mid
        ∧ vigenere_stage mid key = Ok out
        ∧ length mid = length ciphertext
        ∧ length out = length ciphertext
        ∧ ∀ i c, ciphertext !! i = Some c →
            if isalpha [c]
            then ∃ m kch,
                   mid !! i = Some m
                   ∧ upper key
                       !! Z.to_nat (alpha_rank ciphertext i `mod` len (upper key))
                     = Some kch
                   ∧ out !! i
                     = Some ((m - offset - (kch - offset)) `mod` 26 + offset)
            else mid !! i = Some c ∧ out !! i = Some c.
Proof.
  intros Hkey. unfold advanced_vigenere_decrypt.
  rewrite (bool_decide_eq_false_2 (key = [])) by done. rewrite orb_false_r.
  destruct (bool_decide_reflect (ciphertext = [])) as [-> | Hct].
  { split; [eauto|]. intros out [= <-]. exists []. repeat split; done. }
  unfold caesar_stage, vigenere_stage. split.
  - intros Hchars Hupper.
    destruct (caesar_loop_total caesar_shift ciphertext [] Hchars) as [mid Hmid].
    rewrite Hmid. simpl. apply vigenere_loop_total; [done|].
    apply caesar_loop_inv in Hmid as (mid' & -> & Hstep).
    by apply caesar_output_upper_is_char in Hstep.
  - intros out.
    destruct (caesar_loop caesar_shift ciphertext []) as [mid|e] eqn:Hmid;
      simpl; [|done].
    intros Hout. exists mid. split; [done|]. split; [done|].
    apply caesar_loop_inv in Hmid as (mid' & -> & Hstep). simpl in *.
    apply vigenere_loop_inv in Hout as (res & -> & Hlen & Hres). simpl.
    pose proof (Forall2_length _ _ _ Hstep) as Hlen'.
    split; [done|]. split; [congruence|].
    intros i c Hi.
    destruct (Forall2_lookup_l _ _ _ _ _ Hstep Hi) as (m & Hm & Hcm).
    destruct (Hres i m Hm) as (p & Hp & Hw).
    unfold vigenere_writes in Hw.
    rewrite (caesar_step_isalpha _ _ _ Hcm), (alpha_rank_caesar _ _ _ _ Hstep),
      Z.add_0_l in Hw.
    unfold caesar_step in Hcm. destruct (isalpha [c]).
    + destruct Hcm as (u & _ & Hmu). destruct Hw as (u' & kch & Hu' & Hk & ->).
      exists m, kch. split; [done|]. split; [done|].
      rewrite Hmu in Hu'. rewrite (proj2 (written_letter _)) in Hu'.
      injection Hu' as <-. by rewrite Hp, Hmu.
    + by subst.
Qed.

(** The documented instance: the dash of AB-CD takes no key letter, so that
    C meets X again (a dash that took one would leave C to Y, and E). *)
Example decrypt_dash_keeps_key_index :
  advanced_vigenere_decrypt (lit "AB-CD") (lit "XY") 0 = Ok (lit "DD-FF").
Proof. reflexivity. Qed.

End DecryptProps.

(** ** Round trip with the reference encryption *)

Section RoundTrip.
Context `{UnicodeData}.

Lemma latin_letter_bounds (c : Z) :
  latin_letter c = true → 65 ≤ latin_upper c ≤ 90 ∧ c < 128.
Proof.
  unfold latin_letter, latin_upper, ascii_isupper, ascii_islower.
  destruct (97 <=? c) eqn:?, (c <=? 122) eqn:?; simpl; lia.
Qed.

Lemma capital_is_written (v : Z) :
  65 ≤ v ≤ 90 → v = (v - offset) `mod` 26 + offset.
Proof. intros Hv. unfold offset. rewrite Z.mod_small; lia. Qed.

Lemma upper_latin (s : str) :
  Forall (λ c, latin_letter c = true) s → upper s = latin_upper <$> s.
Proof.
  induction 1 as [|c s Hc _ IH]; [done|].
  change (upper (c :: s)) with (upper_char c ++ upper s). rewrite IH.
  apply latin_letter_bounds in Hc as [_ Hc].
  unfold upper_char, is_ascii. by replace (c <? 128) with true by lia.
Qed.

Lemma caesar_encrypt_capital (shift v : Z) :
  65 ≤ v ≤ 90 → caesar_encrypt_char shift v = (v - offset + shift) `mod` 26 + offset.
Proof.
  intros Hv. unfold caesar_encrypt_char, latin_letter, latin_upper,
    ascii_isupper, ascii_islower.
  replace (65 <=? v) with true by lia. replace (v <=? 90) with true by lia.
  by replace (97 <=? v) with false by lia.
Qed.

(** The Caesar stage undoes the Caesar encryption of capital letters. *)
Lemma caesar_loop_encrypt (shift : Z) (v acc : str) :
  Forall (λ c, 65 ≤ c ≤ 90) v →
  caesar_loop shift (caesar_encrypt v shift) acc = Ok (acc ++ v).
Proof.
  intros Hv. revert acc.
  induction Hv as [|c v Hc _ IH]; intros acc; simpl; [by rewrite app_nil_r|].
  rewrite caesar_encrypt_capital by done.
  destruct (written_letter (c - offset + shift)) as [-> ->]. simpl.
  assert (((c - offset + shift) `mod` 26 + offset - offset - shift) `mod` 26
          + offset = c) as Hback.
  { replace (_ - offset - shift) with ((c - offset + shift) `mod` 26 - shift)
      by lia.
    rewrite Zminus_mod_idemp_l.
    replace (c - offset + shift - shift) with (c - offset) by lia.
    symmetry. by apply capital_is_written. }
  rewrite chr_letter, Hback. simpl. fold (caesar_encrypt v shift).
  by rewrite IH, <- app_assoc.
Qed.

Lemma vigenere_encrypt_capital (key text : str) (key_index : Z) :
  Forall (λ c, latin_letter c = true) text →
  Forall (λ c, 65 ≤ c ≤ 90) (vigenere_encrypt_from key text key_index).
Proof.
  intros Htext. revert key_index.
  induction Htext as [|c text Hc _ IH]; intros ki; simpl; [done|].
  rewrite Hc. constructor; [|apply IH].
  pose proof (Z.mod_pos_bound (latin_upper c - offset + key_shift key ki) 26).
  unfold offset in *. lia.
Qed.

(** The Vigenère stage undoes the Vigenère encryption of a text of letters. *)
Lemma vigenere_loop_encrypt (key text acc : str) (key_index : Z) :
  key ≠ [] →
  Forall (λ c, latin_letter c = true) text →
  vigenere_loop (latin_upper <$> key)
                (vigenere_encrypt_from key text key_index) acc key_index
  = Ok (acc ++ (latin_upper <$> text)).
Proof.
  intros Hkey Htext. revert acc key_index.
  assert (0 < len key) as Hlen.
  { unfold len. destruct key; [done | simpl; lia]. }
  assert (len (latin_upper <$> key) = len key) as Hlenu.
  { unfold len. by rewrite length_fmap. }
  induction Htext as [|c text Hc _ IH]; intros acc ki; simpl;
    [by rewrite app_nil_r|].
  rewrite Hc. simpl.
  destruct (written_letter (latin_upper c - offset + key_shift key ki))
    as [-> ->]. simpl.
  unfold mod_. rewrite Hlenu. replace (len key =? 0) with false by lia. simpl.
  pose proof (Z.mod_pos_bound ki (len key) Hlen) as Hbound.
  unfold index, key_shift.
  destruct (lookup_lt_is_Some_2 (latin_upper <$> key)
              (Z.to_nat (ki `mod` len key))) as [kch ->].
  { rewrite length_fmap. unfold len in *. lia. }
  simpl.
  assert (((latin_upper c - offset + (kch - offset)) `mod` 26 + offset - offset
           - (kch - offset)) `mod` 26 + offset = latin_upper c) as Hback.
  { replace (_ - offset - (kch - offset))
      with ((latin_upper c - offset + (kch - offset)) `mod` 26 - (kch - offset))
      by lia.
    rewrite Zminus_mod_idemp_l.
    replace (latin_upper c - offset + (kch - offset) - (kch - offset))
      with (latin_upper c - offset) by lia.
    symmetry. apply capital_is_written. by apply latin_letter_bounds. }
  rewrite chr_letter, Hback. simpl. by rewrite IH, <- app_assoc.
Qed.


End RoundTrip.

(** ** The bit-plane extractor *)

Section BitPlane.

Lemma wrap16_small (z : Z) : -32768 ≤ z < 32768 → wrap16 z = z.
Proof. intros Hz. unfold wrap16. rewrite Z.mod_small; lia. Qed.

Lemma wrap16_parity (z : Z) : Z.land (wrap16 z) 1 = Z.land z 1.
Proof.
  change 1 with (Z.ones 1). rewrite !Z.land_ones by lia. unfold wrap16.
  change (2 ^ 1) with 2.
  rewrite <- (Z.add_opp_r _ 32768), <- Zplus_mod_idemp_l.
  rewrite Zdiv.Z.mod_mod_divide by (exists 32768; lia).
  rewrite Zplus_mod_idemp_l.
  f_equal. lia.
Qed.

(** The arithmetic of one sample never leaves the 16-bit range. *)
Lemma hidden_sample_value (bit_pos x : Z) :
  0 ≤ bit_pos →
  hidden_sample bit_pos (Z.shiftr 16383 bit_pos) x
  = (2 * Z.b2z (Z.testbit x bit_pos) - 1) * Z.shiftr 16383 bit_pos
  ∧ - Z.shiftr 16383 bit_pos
    ≤ hidden_sample bit_pos (Z.shiftr 16383 bit_pos) x
    ≤ Z.shiftr 16383 bit_pos.
Proof.
  intros Hb. unfold hidden_sample.
  rewrite wrap16_parity.
  assert (Z.land (Z.shiftr x bit_pos) 1 = Z.b2z (Z.testbit x bit_pos)) as ->.
  { change 1 with (Z.ones 1). rewrite Z.land_ones by lia.
    change (2 ^ 1) with 2. rewrite <- Z.bit0_mod.
    by rewrite Z.shiftr_spec, Z.add_0_l by lia. }
  assert (0 ≤ Z.shiftr 16383 bit_pos ≤ 16383) as Hscale.
  { rewrite Z.shiftr_div_pow2 by done. split.
    - apply Z.div_pos; lia.
    - apply Z.div_le_upper_bound; [lia|].
      assert (1 ≤ 2 ^ bit_pos) by (apply (Z.pow_le_mono_r 2 0); lia). nia. }
  destruct (Z.testbit x bit_pos); simpl Z.b2z.
  - change (wrap16 (wrap16 (wrap16 1 * 2) - 1)) with 1.
    rewrite (wrap16_small (1 * _)) by lia.
    rewrite (wrap16_small (1 * _)) by lia. lia.
  - change (wrap16 (wrap16 (wrap16 0 * 2) - 1)) with (-1).
    rewrite (wrap16_small (-1 * _)) by lia.
    rewrite (wrap16_small (-1 * _)) by lia. lia.
Qed.

Lemma layer_key_inj : Inj (=) (=) layer_key.
Proof.
  intros b b' Hkey. unfold layer_key in Hkey. simpl in Hkey.
  injection Hkey as Hkey. by apply (inj pretty).
Qed.

Lemma rshift_ok (x n scale : Z) : rshift x n = Ok scale → 0 ≤ n ∧ scale = Z.shiftr x n.
Proof. unfold rshift. destruct (n <? 0) eqn:Hn; [done|]. intros [= <-]. lia. Qed.

(** A key that no later position writes keeps its layer. *)
Lemma lsb_loop_keeps (data : list Z) (bit_positions : list Z)
    (layers0 layers : gmap string (list Z)) (k : string) :
  lsb_loop data bit_positions layers0 = Ok layers →
  (∀ b, b ∈ bit_positions → layer_key b ≠ k) →
  layers !! k = layers0 !! k.
Proof.
  revert layers0. induction bit_positions as [|b rest IH]; intros layers0; simpl.
  - by intros [= <-].
  - destruct (rshift 16383 b) as [scale|e]; simpl; [|done].
    intros Hloop Hfresh. rewrite (IH _ Hloop).
    + apply lookup_insert_ne. apply Hfresh. by left.
    + intros b' Hb'. apply Hfresh. by right.
Qed.

Lemma lsb_loop_writes (data : list Z) (bit_positions : list Z)
    (layers0 layers : gmap string (list Z)) (b : Z) :
  lsb_loop data bit_positions layers0 = Ok layers →
  b ∈ bit_positions →
  0 ≤ b ∧ layers !! layer_key b
          = Some (hidden_sample b (Z.shiftr 16383 b) <$> data).
Proof.
  revert layers0. induction bit_positions as [|b0 rest IH]; intros layers0; simpl.
  - intros _ Hb. by apply elem_of_nil in Hb.
  - destruct (rshift 16383 b0) as [scale|e] eqn:Hscale; simpl; [|done].
    apply rshift_ok in Hscale as [Hb0 ->]. intros Hloop Hb.
    destruct (decide (b ∈ rest)) as [Hrest | Hrest]; [by eapply IH|].
    apply elem_of_cons in Hb as [-> | Hb]; [|done]. split; [done|].
    rewrite (lsb_loop_keeps _ _ _ _ _ Hloop).
    + apply lookup_insert_eq.
    + intros b' Hb' Hkey. apply layer_key_inj in Hkey. by subst.
Qed.

Lemma lsb_loop_total (data : list Z) (bit_positions : list Z)
    (layers0 : gmap string (list Z)) :
  Forall (λ b, 0 ≤ b) bit_positions →
  ∃ layers, lsb_loop data bit_positions layers0 = Ok layers.
Proof.
  intros Hpos. revert layers0.
  induction Hpos as [|b rest Hb _ IH]; intros layers0; simpl; [eauto|].
  unfold rshift. replace (b <? 0) with false by lia. simpl. apply IH.
Qed.

(** The mean of a frame of 16-bit samples, its fraction dropped, is a 16-bit
    value. *)
Lemma truncated_mean_in_range (row : list Z) :
  row ≠ [] →
  Forall (λ x, -32768 ≤ x ≤ 32767) row →
  -32768 ≤ Z.quot (foldr Z.add 0 row) (len row) ≤ 32767.
Proof.
  intros Hne Hrow.
  assert (-32768 * len row ≤ foldr Z.add 0 row ≤ 32767 * len row) as Hsum.
  { clear Hne. unfold len. induction Hrow as [|x row Hx _ IH]; simpl; lia. }
  assert (0 < len row) as Hlen by (unfold len; destruct row; [done | simpl; lia]).
  split.
  - apply Z.quot_le_lower_bound; lia.
  - apply Z.quot_le_upper_bound; lia.
Qed.

(** C7. For every array of samples and every requested bit position [b]
    (the positions fit the 16 bits of the samples), the layer stored for [b]
    holds [(2 * bit - 1) * (16383 >> b)] for each sample, with [bit] the bit
    number [b] of that sample: of the sample itself for a mono signal, and
    for a signal of several channels of the mean of the frame of 16-bit
    samples, the sum of the channels divided by their number with the
    fraction dropped.  Every value lies between [-(16383 >> b)] and
    [16383 >> b]; and the extraction does return its layers when no
    requested position is negative. *)
Theorem lsb_layer_values (data : ndarray) (bit_positions : list Z) (b : Z) :
  b ∈ bit_positions →
  Forall (λ b, -32768 ≤ b ≤ 32767) bit_positions →
  (Forall (λ b, 0 ≤ b) bit_positions →
   ∃ layers, extract_multi_lsb_audio data bit_positions = Ok layers)
  ∧ ∀ layers, extract_multi_lsb_audio data bit_positions = Ok layers →
      ∃ layer,
        layers !! layer_key b = Some layer
        ∧ (∀ samples, data = Mono samples →
           layer = (λ x, (2 * Z.b2z (Z.testbit x b) - 1) * Z.shiftr 16383 b)
                     <$> samples)
        ∧ (∀ frames, data = Frames frames →
           Forall (λ row, row ≠ [] ∧ Forall (λ x, -32768 ≤ x ≤ 32767) row)
                  frames →
           layer = (λ row,
                      (2 * Z.b2z (Z.testbit
                                    (Z.quot (foldr Z.add 0 row) (len row)) b)
                       - 1) * Z.shiftr 16383 b)
                     <$> frames)
        ∧ Forall (λ v, - Z.shiftr 16383 b ≤ v ≤ Z.shiftr 16383 b) layer.
Proof.
  intros Hb _. unfold extract_multi_lsb_audio. split; [apply lsb_loop_total|].
  intros layers Hloop.
  destruct (lsb_loop_writes _ _ _ _ _ Hloop Hb) as [Hpos Hlayer].
  eexists. split; [done|]. split; [|split].
  - intros samples ->. simpl.
    apply list_fmap_ext. intros i x _. by apply hidden_sample_value.
  - intros frames -> Hframes. simpl. rewrite <- list_fmap_compose.
    apply Forall_fmap_ext_1. eapply Forall_impl; [exact Hframes|].
    intros row [Hne Hrow]. simpl.
    destruct (hidden_sample_value b (mean_int16 row) Hpos) as [-> _].
    unfold mean_int16. rewrite wrap16_small; [done|].
    pose proof (truncated_mean_in_range row Hne Hrow). lia.
  - apply Forall_fmap, Forall_true. intros x. by apply hidden_sample_value.
Qed.

End BitPlane.

(** ** The cipher bundle *)

Section Bundle.

Lemma quaternary_value (now : datetime) (audio : result (option tags)) :
  quaternary now audio
  = Some (lit "WLPH_VKLIW_" ++ format_02d (hour now `mod` 13)).
Proof.
  unfold quaternary, extract_complex_metadata.
  assert (initial_ciphers now !! "quaternary"
          = Some (lit "WLPH_VKLIW_" ++ format_02d (hour now `mod` 13))) as Hq.
  { unfold initial_ciphers. apply lookup_insert_eq. }
  generalize dependent (initial_ciphers now). intros ciphers Hq.
  destruct audio as [[audio_tags|]|e]; unfold mbind, result_bind, try_except;
    try done.
  destruct (bool_decide (audio_tags = ∅)); [done|].
  destruct (gather_tags audio_tags _ []) as [text|e]; [|done].
  destruct (bool_decide (text = [])); [done|].
  by rewrite lookup_insert_ne.
Qed.

(** Hour by hour: the two digits written at [h], and those written at the
    hour that follows. *)
Lemma hours_of_the_day (h : Z) :
  0 ≤ h ≤ 23 →
  length (format_02d (h `mod` 13)) = 2%nat
  ∧ format_02d (h `mod` 13) ≠ format_02d (((h + 1) `mod` 24) `mod` 13).
Proof.
  intros Hh.
  assert (Forall (λ h, length (format_02d (h `mod` 13)) = 2%nat
                       ∧ format_02d (h `mod` 13)
                         ≠ format_02d (((h + 1) `mod` 24) `mod` 13))
                 (seqZ 0 24)) as Hall.
  { compute_done. }
  rewrite Forall_forall in Hall. apply Hall, elem_of_seqZ. lia.
Qed.

(** C4, as the code has it.  The quaternary field is the literal prefix
    followed by the local hour taken modulo 13 (0 to 12), zero-padded to two
    digits; it depends on the clock through the hour alone, so it is stable
    within an hour, and it changes at every hour boundary. *)
Theorem quaternary_follows_hour_mod_13
    (t t' : datetime) (audio audio' : result (option tags)) :
  valid_time t →
  quaternary t audio
  = Some (lit "WLPH_VKLIW_" ++ format_02d (hour t `mod` 13))
  ∧ length (format_02d (hour t `mod` 13)) = 2%nat
  ∧ (hour t' = hour t → quaternary t' audio' = quaternary t audio)
  ∧ (hour t' = (hour t + 1) `mod` 24 →
     quaternary t' audio' ≠ quaternary t audio).
Proof.
  intros (Hh & _). destruct (hours_of_the_day _ Hh) as [Hlen Hnext].
  rewrite !quaternary_value. repeat split; [done| |].
  - by intros ->.
  - intros -> [= Heq]. by apply Hnext.
Qed.

(** C4 as documented fails from 13 o'clock on: at 13:00 the field ends in
    00, not in 13. *)
Lemma quaternary_is_not_the_hour :
  valid_time one_pm
  ∧ quaternary one_pm (Raise LibraryError) = Some (lit "WLPH_VKLIW_00")
  ∧ quaternary_as_documented one_pm = lit "WLPH_VKLIW_13"
  ∧ quaternary one_pm (Raise LibraryError)
    ≠ Some (quaternary_as_documented one_pm).
Proof.
  split; [unfold valid_time; simpl; lia|].
  rewrite quaternary_value. split; [done|]. split; [done|]. by vm_compute.
Qed.

End Bundle.

(** ** The order of the doubles *)

Section FloatOrder.

Lemma SFcompare_refl (f : spec_float) :
  f ≠ S754_nan → SFcompare f f = Some Eq.
Proof.
  destruct f as [s|s| |s m e]; try done; simpl; intros _; destruct s; try done;
    change (Pos.compare_cont Eq m m) with (Pos.compare m m);
    by rewrite Z.compare_refl, Pos.compare_refl.
Qed.

Lemma SFcompare_antisym (f1 f2 : spec_float) :
  SFcompare f2 f1 = option_map CompOpp (SFcompare f1 f2).
Proof.
  destruct f1 as [s1|s1| |s1 m1 e1], f2 as [s2|s2| |s2 m2 e2]; simpl; try done;
    try (by destruct s1); try (by destruct s2); try (by destruct s1, s2).
  change (Pos.compare_cont Eq m2 m1) with (Pos.compare m2 m1).
  change (Pos.compare_cont Eq m1 m2) with (Pos.compare m1 m2).
  rewrite (Z.compare_antisym e1 e2), (Pos.compare_antisym m1 m2).
  destruct s1, s2; simpl; try done; by destruct (e1 ?= e2), (m1 ?= m2)%positive.
Qed.

Lemma SFleb_total (f1 f2 : spec_float) :
  f1 ≠ S754_nan → f2 ≠ S754_nan → SFleb f1 f2 = false → SFltb f2 f1 = true.
Proof.
  intros H1 H2. unfold SFleb, SFltb. rewrite (SFcompare_antisym f1 f2).
  destruct f1, f2; try done; simpl; by repeat case_match.
Qed.

Lemma SFltb_leb_trans (f1 f2 f3 : spec_float) :
  SFltb f1 f2 = true → SFleb f2 f3 = true → SFltb f1 f3 = true.
Proof.
  unfold SFltb, SFleb.
  destruct f1 as [s1|s1| |s1 m1 e1], f2 as [s2|s2| |s2 m2 e2],
    f3 as [s3|s3| |s3 m3 e3]; simpl; try done;
    try (destruct s1; try done); try (destruct s2; try done);
    try (destruct s3; try done);
    change (Pos.compare_cont Eq) with Pos.compare;
    repeat match goal with
    | |- context [(?a ?= ?b)%Z] => destruct (Z.compare_spec a b); try done
    | |- context [(?a ?= ?b)%positive] =>
        destruct (Pos.compare_spec a b); try done
    end; simpl; try done; intros; subst; lia.
Qed.

Lemma not_nan_spec (x : float) : is_nan x = false → Prim2SF x ≠ S754_nan.
Proof.
  unfold is_nan. rewrite FloatAxioms.eqb_spec. intros Hx Hnan.
  by rewrite Hnan in Hx.
Qed.

Lemma float_leb_refl (x : float) : is_nan x = false → (x <=? x)%float = true.
Proof.
  intros Hx. rewrite leb_spec. unfold SFleb.
  by rewrite SFcompare_refl by by apply not_nan_spec.
Qed.

Lemma float_leb_total (x y : float) :
  is_nan x = false → is_nan y = false →
  (x <=? y)%float = false → (y <? x)%float = true.
Proof.
  intros Hx Hy. rewrite leb_spec, ltb_spec.
  apply SFleb_total; by apply not_nan_spec.
Qed.

Lemma float_ltb_leb_trans (x y z : float) :
  (x <? y)%float = true → (y <=? z)%float = true → (x <? z)%float = true.
Proof. rewrite !ltb_spec, leb_spec. apply SFltb_leb_trans. Qed.

Lemma float_ltb_leb (x y : float) :
  (x <? y)%float = true → (x <=? y)%float = true.
Proof.
  rewrite ltb_spec, leb_spec. unfold SFltb, SFleb. by repeat case_match.
Qed.

Lemma float_ltb_not_leb (x y : float) :
  (x <? y)%float = true → (y <=? x)%float = false.
Proof.
  rewrite ltb_spec, leb_spec. unfold SFltb, SFleb.
  rewrite (SFcompare_antisym (Prim2SF x) (Prim2SF y)).
  by destruct (SFcompare (Prim2SF x) (Prim2SF y)) as [[]|].
Qed.

End FloatOrder.

(** ** [np.argmin] *)

Section Argmin.

Lemma argmin_from_lt (rest : list float) (i : nat) (mp : float) (min_ind : nat) :
  (min_ind < i)%nat → (argmin_from rest i mp min_ind < i + length rest)%nat.
Proof.
  revert i mp min_ind. induction rest as [|x rest IH]; intros i mp k Hk; simpl.
  - lia.
  - destruct (negb (mp <=? x)%float).
    + destruct (is_nan x); [lia|]. specialize (IH (S i) x i). lia.
    + specialize (IH (S i) mp k). lia.
Qed.

(** The index [np.argmin] returns lies within the array. *)
Lemma argmin_lt (a : list float) (i : nat) :
  argmin a = Ok i → (i < length a)%nat.
Proof.
  destruct a as [|x rest]; simpl; [done|]. intros [= <-].
  destruct (is_nan x); [lia|].
  pose proof (argmin_from_lt rest 1 x 0). lia.
Qed.

Lemma argmin_is_Ok (a : list float) : a ≠ [] → ∃ i, argmin a = Ok i.
Proof. destruct a; [done|]. simpl. eauto. Qed.

(** The invariant of the loop: [mp] is the first least value of the part
    [done_] already read. *)
Lemma argmin_from_first_minimum (done_ rest : list float) (mp : float)
    (min_ind : nat) :
  Forall (λ x, is_nan x = false) (done_ ++ rest) →
  done_ !! min_ind = Some mp →
  (∀ j y, done_ !! j = Some y → (mp <=? y)%float = true) →
  (∀ j y, (j < min_ind)%nat → done_ !! j = Some y → (mp <? y)%float = true) →
  first_minimum (done_ ++ rest) (argmin_from rest (length done_) mp min_ind).
Proof.
  revert done_ mp min_ind.
  induction rest as [|x rest IH]; intros done_ mp k Hnan Hk Hle Hlt; simpl.
  - rewrite app_nil_r. by exists mp.
  - assert (is_nan x = false) as Hx.
    { rewrite Forall_app, Forall_cons in Hnan. by destruct Hnan as (_ & ? & _). }
    assert (is_nan mp = false) as Hmp.
    { rewrite Forall_app, Forall_forall in Hnan. destruct Hnan as [Hnan _].
      apply Hnan. by eapply list_elem_of_lookup_2. }
    replace (done_ ++ x :: rest) with ((done_ ++ [x]) ++ rest) in *
      by by rewrite <- app_assoc.
    replace (S (length done_)) with (length (done_ ++ [x]))
      by (rewrite length_app; simpl; lia).
    destruct (mp <=? x)%float eqn:Hcmp; simpl.
    + apply IH; [done | | |].
      * by apply lookup_app_l_Some.
      * intros j y Hj. apply lookup_snoc_Some in Hj as [[_ Hj] | [_ <-]]; eauto.
      * intros j y Hjk Hj. apply lookup_snoc_Some in Hj as [[_ Hj] | [Hj _]].
        -- eauto.
        -- apply lookup_lt_Some in Hk. lia.
    + rewrite Hx. apply float_leb_total in Hcmp; [|done..].
      apply IH; [done | | |].
      * apply list_lookup_middle. done.
      * intros j y Hj. apply lookup_snoc_Some in Hj as [[_ Hj] | [_ <-]].
        -- apply float_ltb_leb. eapply float_ltb_leb_trans; eauto.
        -- by apply float_leb_refl.
      * intros j y Hjk Hj. apply lookup_snoc_Some in Hj as [[_ Hj] | [Hj _]].
        -- eapply float_ltb_leb_trans; eauto.
        -- lia.
Qed.

(** Among values that are numbers, [np.argmin] returns the first index of a
    least one. *)
Lemma argmin_first_minimum (a : list float) (i : nat) :
  Forall (λ x, is_nan x = false) a → argmin a = Ok i → first_minimum a i.
Proof.
  destruct a as [|x rest]; simpl; [done|]. intros Hnan [= <-].
  assert (is_nan x = false) as Hx by by inversion Hnan.
  rewrite Hx. apply (argmin_from_first_minimum [x] rest x 0); [done..| |].
  - intros [|j] y [= <-]. by apply float_leb_refl.
  - intros j y Hj. lia.
Qed.

(** There is one first minimum at most. *)
Lemma first_minimum_unique (a : list float) (i j : nat) :
  first_minimum a i → first_minimum a j → i = j.
Proof.
  intros (x & Hi & Hle_i & Hlt_i) (y & Hj & Hle_j & Hlt_j).
  destruct (Nat.lt_trichotomy i j) as [Hij | [Hij | Hij]]; [|done|].
  - pose proof (Hlt_j i x Hij Hi) as Hlt. apply float_ltb_not_leb in Hlt.
    by rewrite (Hle_i j y Hj) in Hlt.
  - pose proof (Hlt_i j y Hij Hj) as Hlt. apply float_ltb_not_leb in Hlt.
    by rewrite (Hle_j i x Hi) in Hlt.
Qed.

End Argmin.

(** ** The frequency fingerprint *)

Section FrequencyProps.
Context `{NumPy}.

Lemma distances_length (freq_bins : list float) (freq : Z) :
  length (distances freq_bins freq) = length freq_bins.
Proof. unfold distances. apply length_fmap. Qed.

(** When the two arrays have the same length, the guard of the loop always
    passes, and every target frequency adds one value, 0 or 1. *)
Lemma frequency_loop_bits (phase : list np_item) (freq_bins : list float)
    (freqs : list Z) (hidden_data out : list Z) :
  length phase = length freq_bins →
  frequency_loop phase freq_bins freqs hidden_data = Ok out →
  ∃ bits, out = hidden_data ++ bits
    ∧ length bits = length freqs
    ∧ Forall (λ v, v = 0 ∨ v = 1) bits.
Proof.
  intros Hlen. revert hidden_data.
  induction freqs as [|freq rest IH]; intros acc; simpl.
  - intros [= <-]. exists []. by rewrite app_nil_r.
  - destruct (argmin (distances freq_bins freq)) as [bin_idx|e] eqn:Hbin;
      simpl; [|done].
    apply argmin_lt in Hbin. rewrite distances_length, <- Hlen in Hbin.
    rewrite bool_decide_eq_true_2 by done.
    destruct (getitem phase bin_idx) as [item|e]; simpl; [|done].
    destruct (int_of_item _) as [x|e]; simpl; [|done].
    intros Hrest. apply IH in Hrest as (bits & -> & Hbits & Hall).
    exists (x `mod` 2 :: bits). split; [by rewrite <- app_assoc|].
    split; [simpl; lia|]. constructor; [|done].
    pose proof (Z.mod_pos_bound x 2). lia.
Qed.

(** C6. Whatever the signal and the sample rate, the fingerprint is a list
    of exactly four values, each 0 or 1; and when a step of the body raises,
    it is the literal list 0, 1, 0, 1. *)
Theorem frequency_fingerprint_four_bits (data : ndarray) (sample_rate : Z) :
  length (extract_frequency_domain_data data sample_rate) = 4%nat
  ∧ Forall (λ v, v = 0 ∨ v = 1) (extract_frequency_domain_data data sample_rate)
  ∧ ∀ e, frequency_body data sample_rate = Raise e →
         extract_frequency_domain_data data sample_rate = [0; 1; 0; 1].
Proof.
  unfold extract_frequency_domain_data.
  destruct (frequency_body data sample_rate) as [out|e] eqn:Hbody; simpl.
  - unfold frequency_body in Hbody.
    apply bind_Ok in Hbody as (phase & Hphase & Hbody).
    apply bind_Ok in Hbody as (d & _ & Hbody).
    apply bind_Ok in Hbody as (freq_bins & Hbins & Hbody).
    apply np_phase_shape in Hphase. apply np_fftfreq_shape in Hbins.
    apply frequency_loop_bits in Hbody as (bits & -> & Hlen & Hall);
      [|unfold len in *; lia].
    done.
  - split; [done|]. split; [|done]. repeat constructor; lia.
Qed.

End FrequencyProps.

Section FrequencyBits.
Context `{NumPy}.

Lemma frequency_loop_values (phase : list np_item) (freq_bins : list float)
    (freqs : list Z) (hidden_data : list Z) :
  length phase = length freq_bins →
  freq_bins ≠ [] →
  Forall phase_number phase →
  (∀ freq, freq ∈ freqs →
     Forall (λ x, is_nan x = false) (distances freq_bins freq)) →
  ∃ bits,
    frequency_loop phase freq_bins freqs hidden_data = Ok (hidden_data ++ bits)
    ∧ Forall2 (bit_at_nearest_bin phase freq_bins) freqs bits.
Proof.
  intros Hlen Hbins Hphase. revert hidden_data.
  induction freqs as [|freq rest IH]; intros acc Hnan; simpl.
  - exists []. by rewrite app_nil_r.
  - destruct (argmin_is_Ok (distances freq_bins freq)) as [bin Hbin].
    { unfold distances. by destruct freq_bins. }
    rewrite Hbin. simpl.
    pose proof (argmin_lt _ _ Hbin) as Hlt.
    rewrite distances_length, <- Hlen in Hlt.
    rewrite bool_decide_eq_true_2 by done.
    destruct (lookup_lt_is_Some_2 phase bin Hlt) as [item Hitem].
    unfold getitem. rewrite Hitem. simpl.
    rewrite Forall_forall in Hphase.
    destruct (Hphase item) as (p & z & -> & Hz);
      [by eapply list_elem_of_lookup_2|].
    simpl. rewrite Hz. simpl.
    destruct (IH (acc ++ [z `mod` 2])) as (bits & -> & Hbits).
    { intros freq' Hfreq'. apply Hnan. by right. }
    exists (z `mod` 2 :: bits). split; [by rewrite <- app_assoc|].
    constructor; [|done]. exists bin, p. split; [|split; [done|]].
    + apply argmin_first_minimum; [|done]. apply Hnan. by left.
    + unfold phase_bit. by rewrite Hz.
Qed.

(** C5, as the code has it.  When the transforms return (a phase array of
    numbers, a frequency axis without NaN distances), the fingerprint holds,
    for each of the four target frequencies in turn, the bit
    [int(p * 1000) % 2] of the phase angle [p] at the first bin whose
    frequency is nearest to the target, where [int] drops the fraction. *)
Theorem frequency_bits_at_nearest_bins (data : ndarray) (sample_rate : Z)
    (phase : list np_item) (d : float) (freq_bins : list float) :
  np_phase data = Ok phase →
  true_div 1 sample_rate = Ok d →
  np_fftfreq (ndarray_len data) d = Ok freq_bins →
  freq_bins ≠ [] →
  Forall phase_number phase →
  (∀ freq, freq ∈ target_freqs →
     Forall (λ x, is_nan x = false) (distances freq_bins freq)) →
  Forall2 (bit_at_nearest_bin phase freq_bins) target_freqs
          (extract_frequency_domain_data data sample_rate).
Proof.
  intros Hphase Hd Hbins Hne Hnum.
  unfold extract_frequency_domain_data, frequency_body.
  generalize target_freqs. intros freqs Hnan.
  rewrite Hphase. simpl. rewrite Hd. simpl. rewrite Hbins. simpl.
  destruct (frequency_loop_values phase freq_bins freqs [])
    as (bits & -> & Hbits); try done.
  apply np_phase_shape in Hphase. apply np_fftfreq_shape in Hbins.
  unfold len in *. lia.
Qed.

End FrequencyBits.

(** [int] rounds toward zero: it is the floor of a number that is not
    negative, and the opposite of the floor of the opposite otherwise. *)
Lemma int_of_float_toward_zero (x : float) :
  int_of_float x
  = if (0 <=? x)%float then floor_of_float x
    else Z.opp <$> floor_of_float (- x)%float.
Proof.
  unfold int_of_float, floor_of_float. rewrite leb_spec, opp_spec.
  change (Prim2SF 0) with (S754_zero false).
  by destruct (Prim2SF x) as [s|s| |s m e]; try destruct s.
Qed.

(** ** The request handlers *)

Section HandlerProps.
Context `{UnicodeData} `{NumPy}.

(** Lower-casing a text lower-cases its end in place. *)
Lemma lower_from_app (before s t : str) :
  ∃ front, lower_from before (s ++ t) = front ++ lower_from (before ++ s) t.
Proof.
  revert before. induction s as [|c s IH]; intros before; simpl.
  - exists []. by rewrite app_nil_r.
  - destruct (IH (before ++ [c])) as [front ->].
    exists (lower_char before c (s ++ t) ++ front).
    by rewrite <- !app_assoc.
Qed.

Lemma lower_WAV (stem : str) :
  endswith (lower (stem ++ lit ".WAV")) (lit ".wav") = true
  ∧ endswith (lower (stem ++ lit ".Wav")) (lit ".wav") = true.
Proof.
  unfold lower. split; apply endswith_spec.
  - destruct (lower_from_app [] stem (lit ".WAV")) as [front ->]. by exists front.
  - destruct (lower_from_app [] stem (lit ".Wav")) as [front ->]. by exists front.
Qed.

(** Processing answers 200 or 500, never 400. *)
Lemma upload_processing_status (env : upload_env) :
  status (upload_processing env) = 200 ∨ status (upload_processing env) = 500.
Proof.
  unfold upload_processing. by destruct (_ ≫= _); [left | right].
Qed.

(** C9. The extension check of [/upload] ignores case: a file name that is
    not empty is answered 400 with the error Only WAV files are accepted
    exactly when its lower-cased form does not end in .wav, and is handed to
    the processing otherwise; names ending in .WAV or .Wav are processed. *)
Theorem upload_extension_check (filename : str) (env : upload_env) :
  filename ≠ [] →
  (upload_file (Some filename) env
   = {| status := 400; payload := ErrorBody (lit "Only WAV files are accepted") |}
   ↔ endswith (lower filename) (lit ".wav") = false)
  ∧ (endswith (lower filename) (lit ".wav") = true →
     upload_file (Some filename) env = upload_processing env)
  ∧ (∀ stem, filename = stem ++ lit ".WAV" ∨ filename = stem ++ lit ".Wav" →
     upload_file (Some filename) env = upload_processing env).
Proof.
  intros Hname. unfold upload_file.
  rewrite bool_decide_eq_false_2 by done.
  assert (endswith (lower filename) (lit ".wav") = true →
          (if negb (endswith (lower filename) (lit ".wav"))
           then {| status := 400;
                   payload := ErrorBody (lit "Only WAV files are accepted") |}
           else upload_processing env) = upload_processing env) as Hpass.
  { by intros ->. }
  split; [|split; [done|]].
  - destruct (endswith (lower filename) (lit ".wav")) eqn:Hext; simpl.
    + split; [|done]. intros Hresp.
      destruct (upload_processing_status env) as [Hs | Hs];
        rewrite Hresp in Hs; simpl in Hs; lia.
    + done.
  - intros stem [-> | ->]; apply Hpass, lower_WAV.
Qed.

End HandlerProps.

Section DecryptHandlerProps.
Context `{UnicodeData}.

(** C10. A 200 answer of [/decrypt] always has [success] true; the verdict
    of the scorer is the [congratulations] field alone, [complexity_score]
    is High exactly when the verdict is true and Partial otherwise, and
    [hint] is a non-empty text exactly when the verdict is false. *)
Theorem decrypt_response_fields (data : decrypt_request) (answer : body) :
  decrypt_cipher data = {| status := 200; payload := answer |} →
  ∃ decrypted verdict complexity_score hint,
    answer = DecryptBody true decrypted verdict complexity_score hint
    ∧ advanced_vigenere_decrypt
        (default [] (req_cipher_text data))
        (upper (strip (default [] (req_key data))))
        (default 3 (req_caesar_shift data)) = Ok decrypted
    ∧ verdict = check_solution_complexity decrypted
                  (upper (strip (default [] (req_key data))))
    ∧ (complexity_score = lit "High" ↔ verdict = true)
    ∧ (complexity_score = lit "Partial" ↔ verdict = false)
    ∧ (hint ≠ [] ↔ verdict = false).
Proof.
  unfold decrypt_cipher. cbv zeta.
  destruct (bool_decide _ || bool_decide _); [done|].
  destruct (advanced_vigenere_decrypt _ _ _) as [decrypted|e]; [|done].
  intros [= <-]. do 4 eexists. split; [done|]. split; [done|]. split; [done|].
  by destruct (check_solution_complexity _ _).
Qed.

End DecryptHandlerProps.

(** * Instances

    The theorems above at concrete inputs, run through the model. *)

(** The frequency axis of four samples at 1760 Hz. *)
Example impulse_freq_bins :
  true_div 1 1760 = Ok (1 / 1760)%float
  ∧ reference_fftfreq 4 (1 / 1760)%float = Ok [0; 440; -880; -440]%float.
Proof. split; by vm_compute. Qed.

(** The fingerprint of [impulse] at 1760 Hz: every target is nearest to the
    bin of 440 Hz, where the phase is -pi/2. *)
Example impulse_fingerprint :
  @extract_frequency_domain_data impulse_numpy impulse 1760 = [0; 0; 0; 0].
Proof. by vm_compute. Qed.

(** The bin of [impulse] at 1760 Hz that is nearest to 440 Hz is bin 1, where
    the phase angle is -pi/2: [int(-1570.79...)] is -1570, whose bit is 0, and
    [floor] gives -1571, whose bit is 1. *)
Example impulse_bin_of_440 :
  first_minimum (distances [0; 440; -880; -440]%float 440) 1
  ∧ impulse_phase !! 1%nat = Some (Scalar (-0x1.921fb54442d18p+0))
  ∧ phase_bit (-0x1.921fb54442d18p+0) = Ok 0
  ∧ phase_bit_as_documented (-0x1.921fb54442d18p+0) = Ok 1.
Proof.
  split; [|by vm_compute].
  apply argmin_first_minimum; [|by vm_compute].
  repeat constructor; by vm_compute.
Qed.

(** C5 as documented fails on a negative phase: the fingerprint of [impulse]
    at 1760 Hz does not hold [floor(p * 1000) mod 2] for the phase angles [p]
    at the bins nearest to the targets. *)
Lemma frequency_bit_is_not_floor :
  ¬ Forall2 (documented_bit_at_nearest_bin impulse_phase
               [0; 440; -880; -440]%float)
            target_freqs
            (@extract_frequency_domain_data impulse_numpy impulse 1760).
Proof.
  rewrite impulse_fingerprint. intros Hall.
  apply Forall2_cons_1 in Hall as [(bin & p & Hbin & Hp & Hbit) _].
  destruct impulse_bin_of_440 as (Hbin1 & Hp1 & _ & Hbit1).
  rewrite (first_minimum_unique _ _ _ Hbin Hbin1), Hp1 in Hp.
  injection Hp as <-. by rewrite Hbit1 in Hbit.
Qed.

Lemma impulse_distances_not_nan (freq : Z) :
  freq ∈ target_freqs →
  Forall (λ x, is_nan x = false) (distances [0; 440; -880; -440]%float freq).
Proof.
  unfold target_freqs. rewrite !elem_of_cons, elem_of_nil.
  intros [-> | [-> | [-> | [-> | []]]]]; repeat constructor; by vm_compute.
Qed.

Lemma impulse_phase_numbers : Forall phase_number impulse_phase.
Proof.
  repeat constructor; eexists _, _; (split; [reflexivity|]); by vm_compute.
Qed.

(** Witness of [frequency_bits_at_nearest_bins]: [impulse] at 1760 Hz. *)
Lemma frequency_bits_at_nearest_bins_witness :
  Forall2 (bit_at_nearest_bin impulse_phase [0; 440; -880; -440]%float)
          target_freqs
          (@extract_frequency_domain_data impulse_numpy impulse 1760).
Proof.
  apply (@frequency_bits_at_nearest_bins impulse_numpy impulse 1760
           impulse_phase (1 / 1760)%float [0; 440; -880; -440]%float).
  - reflexivity.
  - apply impulse_freq_bins.
  - apply impulse_freq_bins.
  - discriminate.
  - exact impulse_phase_numbers.
  - exact impulse_distances_not_nan.
Defined.


Example round_trip_ciphertext :
  reference_encrypt (lit "Hello") (lit "Key") 3 = lit "ULMYV".
Proof. reflexivity. Qed.

(** Witness of [decrypt_non_alpha_pass_through]: AB-CD under XY; the dash
    stays at position 2 after each stage. *)
Lemma decrypt_non_alpha_pass_through_witness :
  lit "XY" ≠ []
  ∧ ∃ out mid,
      @advanced_vigenere_decrypt ascii_tables (lit "AB-CD") (lit "XY") 0 = Ok out
      ∧ @caesar_stage ascii_tables (lit "AB-CD") 0 = Ok mid
      ∧ mid !! 2%nat = Some 45
      ∧ out !! 2%nat = Some 45.
Proof.
  assert (lit "XY" ≠ []) as Hkey by discriminate.
  split; [exact Hkey|].
  destruct (@decrypt_non_alpha_pass_through ascii_tables
              (lit "AB-CD") (lit "XY") 0 Hkey) as [Htotal Hinv].
  destruct Htotal as [out Hout].
  { repeat constructor; intros _; eexists; reflexivity. }
  { discriminate. }
  destruct (Hinv out Hout) as (mid & Hmid & _ & _ & _ & Hpos).
  destruct (Hpos 2%nat 45 eq_refl) as [Hmid2 Hout2].
  exists out, mid. exact (conj Hout (conj Hmid (conj Hmid2 Hout2))).
Defined.

(** Witness of [lsb_layer_values]: bit 0 of two stereo frames.  The second
    frame has the sum -3 and the mean -1, the fraction dropped toward zero. *)
Lemma lsb_layer_values_witness :
  0 ∈ [0; 1; 2]
  ∧ Forall (λ b, -32768 ≤ b ≤ 32767) [0; 1; 2]
  ∧ ∃ layers layer,
      extract_multi_lsb_audio (Frames [[1; 3]; [-4; 1]]) [0; 1; 2] = Ok layers
      ∧ layers !! layer_key 0 = Some layer
      ∧ layer = [-16383; 16383].
Proof.
  assert (0 ∈ [0; 1; 2]) as Hb by left.
  assert (Forall (λ b, -32768 ≤ b ≤ 32767) [0; 1; 2]) as Hfit
    by (repeat constructor; lia).
  refine (conj Hb (conj Hfit _)).
  destruct (lsb_layer_values (Frames [[1; 3]; [-4; 1]]) [0; 1; 2] 0 Hb Hfit)
    as [Htotal Hinv].
  destruct Htotal as [layers Hlayers].
  { repeat constructor; lia. }
  destruct (Hinv layers Hlayers) as (layer & Hlayer & _ & Hvalues & _).
  exists layers, layer. refine (conj Hlayers (conj Hlayer _)).
  apply (Hvalues [[1; 3]; [-4; 1]] eq_refl).
  repeat constructor; (discriminate || lia).
Defined.

(** Witness of [quaternary_follows_hour_mod_13]: 13:00 and itself. *)
Lemma quaternary_follows_hour_mod_13_witness :
  valid_time one_pm
  ∧ quaternary one_pm (Raise LibraryError) = Some (lit "WLPH_VKLIW_00").
Proof.
  assert (valid_time one_pm) as Hvalid by (unfold valid_time; simpl; lia).
  split; [exact Hvalid|].
  exact (proj1 (quaternary_follows_hour_mod_13 one_pm one_pm
                  (Raise LibraryError) (Raise LibraryError) Hvalid)).
Defined.

(** Witness of [upload_extension_check]: SONG.WAV is processed. *)
Lemma upload_extension_check_witness :
  lit "SONG.WAV" ≠ []
  ∧ @upload_file ascii_tables impulse_numpy (Some (lit "SONG.WAV")) impulse_upload
    = @upload_processing impulse_numpy impulse_upload.
Proof.
  assert (lit "SONG.WAV" ≠ []) as Hname by discriminate.
  split; [exact Hname|].
  destruct (@upload_extension_check ascii_tables impulse_numpy
              (lit "SONG.WAV") impulse_upload Hname) as (_ & _ & Hcase).
  apply (Hcase (lit "SONG")). left. reflexivity.
Defined.

Example upload_processing_answers_200 :
  status (@upload_processing impulse_numpy impulse_upload) = 200.
Proof. by vm_compute. Qed.

Example upload_rejects_mp3 :
  @upload_file ascii_tables impulse_numpy (Some (lit "song.mp3")) impulse_upload
  = {| status := 400; payload := ErrorBody (lit "Only WAV files are accepted") |}.
Proof. reflexivity. Qed.

Example sample_response :
  @decrypt_cipher ascii_tables sample_request
  = {| status := 200;
       payload := DecryptBody true (lit "DD-FF!") false (lit "Partial")
         (lit "Try different cipher types and Caesar shifts if unsuccessful.") |}.
Proof. reflexivity. Qed.

(** Witness of [decrypt_response_fields]: the sample request. *)
Lemma decrypt_response_fields_witness :
  ∃ decrypted verdict complexity_score hint,
    DecryptBody true (lit "DD-FF!") false (lit "Partial")
      (lit "Try different cipher types and Caesar shifts if unsuccessful.")
    = DecryptBody true decrypted verdict complexity_score hint
    ∧ (hint ≠ [] ↔ verdict = false).
Proof.
  destruct (@decrypt_response_fields ascii_tables sample_request _ sample_response)
    as (decrypted & verdict & score & hint & Hbody & _ & _ & _ & _ & Hhint).
  exists decrypted, verdict, score, hint. exact (conj Hbody Hhint).
Defined.

(** * Further properties *)

(** ** [advanced_vigenere_decrypt] *)

Section DecryptMore.
Context `{UnicodeData}.

Lemma ord_Ok (s : str) (u : Z) : ord s = Ok u ↔ s = [u].
Proof.
  destruct s as [|c [|c' s]]; simpl; split; try done.
  - by intros [= ->].
  - by intros [= ->].
Qed.

Lemma ord_Raise (s : str) (e : exn) :
  ord s = Raise e → e = TypeError ∧ ∀ u, s ≠ [u].
Proof.
  destruct s as [|c [|c' s]]; simpl; try done; by intros [= <-].
Qed.

(** Outside the two early returns, the function is its two stages. *)
Lemma decrypt_runs (ciphertext key : str) (caesar_shift : Z) :
  ciphertext ≠ [] → key ≠ [] →
  advanced_vigenere_decrypt ciphertext key caesar_shift
  = caesar_stage ciphertext caesar_shift ≫= λ mid, vigenere_stage mid key.
Proof.
  intros Hct Hkey. unfold advanced_vigenere_decrypt.
  by rewrite !bool_decide_eq_false_2 by done.
Qed.

(** The Caesar loop raises only on a bad letter, and then a [TypeError]. *)
Lemma caesar_loop_raises (s : Z) (chars acc : str) (e : exn) :
  caesar_loop s chars acc = Raise e → e = TypeError ∧ Exists bad_letter chars.
Proof.
  revert acc. induction chars as [|c rest IH]; intros acc; simpl; [done|].
  destruct (isalpha [c]) eqn:Hc.
  - destruct (ord (upper [c])) as [u|e'] eqn:Hu; simpl.
    + rewrite chr_letter. simpl. intros Hrest.
      destruct (IH _ Hrest) as [-> Hbad]. split; [done | by right].
    + intros [= <-]. apply ord_Raise in Hu as [-> Hu].
      split; [done|]. by left.
  - intros Hrest. destruct (IH _ Hrest) as [-> Hbad]. split; [done | by right].
Qed.

Lemma caesar_loop_bad_letter (s : Z) (chars acc : str) :
  Exists bad_letter chars → caesar_loop s chars acc = Raise TypeError.
Proof.
  revert acc. induction chars as [|c rest IH]; intros acc Hbad; simpl.
  - by apply Exists_nil in Hbad.
  - apply Exists_cons in Hbad as [[Hc Hbad] | Hbad].
    + rewrite Hc. destruct (ord (upper [c])) as [u|e] eqn:Hu; simpl.
      * apply ord_Ok in Hu. by destruct (Hbad u).
      * by apply ord_Raise in Hu as [-> _].
    + destruct (isalpha [c]); [|by apply IH].
      destruct (ord (upper [c])) as [u|e] eqn:Hu; simpl.
      * rewrite chr_letter. simpl. by apply IH.
      * by apply ord_Raise in Hu as [-> _].
Qed.

(** The Vigenère stage returns on every output of the Caesar stage. *)
Lemma vigenere_after_caesar (s : Z) (ciphertext mid key : str) :
  upper key ≠ [] →
  caesar_stage ciphertext s = Ok mid →
  ∃ out, vigenere_stage mid key = Ok out.
Proof.
  intros Hkey Hmid. apply caesar_loop_inv in Hmid as (mid' & -> & Hstep).
  apply vigenere_loop_total; [done|].
  by apply caesar_output_upper_is_char in Hstep.
Qed.

(** The decryption raises exactly on a text with a letter whose upper case
    is not one character, and what it raises is a [TypeError]. *)
Theorem decrypt_raises_iff (ciphertext key : str) (caesar_shift : Z) (e : exn) :
  key ≠ [] → upper key ≠ [] →
  advanced_vigenere_decrypt ciphertext key caesar_shift = Raise e
  ↔ e = TypeError ∧ Exists bad_letter ciphertext.
Proof.
  intros Hkey Hupper.
  destruct (decide (ciphertext = [])) as [-> | Hct].
  { split; [done|]. intros [_ Hbad]. by apply Exists_nil in Hbad. }
  rewrite decrypt_runs by done. split.
  - destruct (caesar_stage ciphertext caesar_shift) as [mid|e'] eqn:Hmid; simpl.
    + destruct (vigenere_after_caesar _ _ _ _ Hupper Hmid) as [out ->]. done.
    + intros [= <-]. by apply caesar_loop_raises in Hmid.
  - intros [-> Hbad]. unfold caesar_stage.
    by rewrite caesar_loop_bad_letter.
Qed.

(** The two stages keep the length. *)
Lemma stages_length (s : Z) (ciphertext mid key out : str) :
  caesar_stage ciphertext s = Ok mid → vigenere_stage mid key = Ok out →
  length mid = length ciphertext ∧ length out = length ciphertext.
Proof.
  intros Hmid Hout.
  apply caesar_loop_inv in Hmid as (mid' & -> & Hstep).
  apply vigenere_loop_inv in Hout as (res & -> & Hlen & _).
  apply Forall2_length in Hstep. simpl in *. split; congruence.
Qed.

(** The decryption returns the empty string only through its two early
    returns: for an empty ciphertext or an empty key. *)
Theorem decrypt_empty_iff (ciphertext key : str) (caesar_shift : Z) :
  advanced_vigenere_decrypt ciphertext key caesar_shift = Ok []
  ↔ ciphertext = [] ∨ key = [].
Proof.
  split.
  - intros Hout.
    destruct (decide (ciphertext = [])) as [| Hct]; [by left|].
    destruct (decide (key = [])) as [| Hkey]; [by right|].
    rewrite decrypt_runs in Hout by done.
    apply bind_Ok in Hout as (mid & Hmid & Hout).
    destruct (stages_length _ _ _ _ _ Hmid Hout) as [_ Hlen].
    by destruct ciphertext.
  - unfold advanced_vigenere_decrypt. intros [-> | ->]; [done|].
    rewrite (bool_decide_eq_true_2 ([] = [])) by done. by rewrite orb_true_r.
Qed.

(** What the two stages do to one position, taken together. *)
Lemma stages_at (s : Z) (ciphertext mid key out : str) (i : nat) (c : Z) :
  caesar_stage ciphertext s = Ok mid → vigenere_stage mid key = Ok out →
  ciphertext !! i = Some c →
  ∃ m p, mid !! i = Some m ∧ out !! i = Some p
    ∧ caesar_step s c m
    ∧ vigenere_writes (upper key) ciphertext 0 i m p.
Proof.
  intros Hmid Hout Hi.
  apply caesar_loop_inv in Hmid as (mid' & -> & Hstep). simpl in *.
  apply vigenere_loop_inv in Hout as (res & -> & _ & Hres). simpl.
  destruct (Forall2_lookup_l _ _ _ _ _ Hstep Hi) as (m & Hm & Hcm).
  destruct (Hres i m Hm) as (p & Hp & Hw).
  exists m, p. repeat split; try done.
  unfold vigenere_writes in *.
  by rewrite (alpha_rank_caesar _ _ _ _ Hstep) in Hw.
Qed.

(** The two stages compose into one shift: the letter at a position moves
    back by the Caesar shift plus the shift of the key letter that its rank
    among the letters selects. *)
Theorem decrypt_total_shift (ciphertext key : str) (caesar_shift : Z)
    (out : str) (i : nat) (c : Z) :
  key ≠ [] →
  advanced_vigenere_decrypt ciphertext key caesar_shift = Ok out →
  ciphertext !! i = Some c →
  isalpha [c] = true →
  ∃ u kch,
    upper [c] = [u]
    ∧ upper key !! Z.to_nat (alpha_rank ciphertext i `mod` len (upper key))
      = Some kch
    ∧ out !! i
      = Some ((u - offset - (caesar_shift + (kch - offset))) `mod` 26 + offset).
Proof.
  intros Hkey Hout Hi Hc.
  assert (ciphertext ≠ []) as Hct by (by intros ->).
  rewrite decrypt_runs in Hout by done.
  apply bind_Ok in Hout as (mid & Hmid & Hout).
  destruct (stages_at _ _ _ _ _ _ _ Hmid Hout Hi) as (m & p & _ & Hp & Hcm & Hw).
  unfold caesar_step in Hcm. rewrite Hc in Hcm. destruct Hcm as (u & Hu & ->).
  unfold vigenere_writes in Hw.
  destruct (written_letter (u - offset - caesar_shift)) as [Halpha Hup].
  rewrite Halpha, Hup, Z.add_0_l in Hw. destruct Hw as (u' & kch & [= <-] & Hk & ->).
  exists u, kch. split; [by apply ord_Ok|]. split; [done|]. rewrite Hp.
  do 2 f_equal.
  replace ((u - offset - caesar_shift) `mod` 26 + offset - offset - (kch - offset))
    with ((u - offset - caesar_shift) `mod` 26 - (kch - offset)) by lia.
  rewrite Zminus_mod_idemp_l. f_equal. lia.
Qed.

(** The output is as long as the ciphertext; it holds a capital Latin letter
    wherever the ciphertext holds a letter, and the character of the
    ciphertext everywhere else. *)
Theorem decrypt_output_alphabet (ciphertext key : str) (caesar_shift : Z)
    (out : str) :
  key ≠ [] →
  advanced_vigenere_decrypt ciphertext key caesar_shift = Ok out →
  Forall2 decrypted_char ciphertext out.
Proof.
  intros Hkey Hout.
  destruct (decide (ciphertext = [])) as [-> | Hct].
  { injection Hout as <-. constructor. }
  rewrite decrypt_runs in Hout by done.
  apply bind_Ok in Hout as (mid & Hmid & Hout).
  apply Forall2_same_length_lookup. split.
  - by destruct (stages_length _ _ _ _ _ Hmid Hout) as [_ ->].
  - intros i c o Hi Ho.
    destruct (stages_at _ _ _ _ _ _ _ Hmid Hout Hi) as (m & p & _ & Hp & Hcm & Hw).
    assert (p = o) as -> by congruence.
    unfold decrypted_char, caesar_step, vigenere_writes in *.
    destruct (isalpha [c]) eqn:Hc.
    + destruct Hcm as (u & _ & ->).
      destruct (written_letter (u - offset - caesar_shift)) as [Halpha _].
      rewrite Halpha in Hw. destruct Hw as (u' & kch & _ & _ & ->).
      pose proof (Z.mod_pos_bound (u' - offset - (kch - offset)) 26
                    ltac:(lia)).
      unfold offset in *. lia.
    + subst m. rewrite Hc in Hw. done.
Qed.


(** Upper-casing within ASCII. *)
Lemma latin_upper_ascii (c : Z) :
  is_ascii c = true →
  upper [c] = [latin_upper c]
  ∧ is_ascii (latin_upper c) = true
  ∧ isalpha [latin_upper c] = isalpha [c]
  ∧ latin_upper (latin_upper c) = latin_upper c
  ∧ (isalpha [c] = false → latin_upper c = c).
Proof.
  intros Hc. rewrite upper_single, !isalpha_single.
  unfold upper_char, isalpha_char. rewrite Hc.
  unfold is_ascii, latin_upper, ascii_isupper, ascii_islower in *.
  destruct (97 <=? c) eqn:?, (c <=? 122) eqn:?; simpl;
    (split; [done|]); (split; [lia|]); rewrite ?Hc;
    repeat match goal with
    | |- context [?a <? ?b] => destruct (a <? b) eqn:?; try lia
    | |- context [?a <=? ?b] => destruct (a <=? b) eqn:?; try lia
    end; simpl; repeat split; (done || lia).
Qed.

Lemma upper_ascii (s : str) :
  Forall (λ c, is_ascii c = true) s → upper s = latin_upper <$> s.
Proof.
  induction 1 as [|c s Hc _ IH]; [done|].
  change (upper (c :: s)) with (upper_char c ++ upper s).
  rewrite IH, <- upper_single. by destruct (latin_upper_ascii c Hc) as [-> _].
Qed.

Lemma caesar_loop_upper (s : Z) (chars acc : str) :
  Forall (λ c, is_ascii c = true) chars →
  caesar_loop s (latin_upper <$> chars) acc = caesar_loop s chars acc.
Proof.
  intros Hchars. revert acc.
  induction Hchars as [|c chars Hc _ IH]; intros acc; [done|].
  rewrite fmap_cons. simpl.
  destruct (latin_upper_ascii c Hc) as (Hup & Hasc & Halpha & Hidem & Hsame).
  destruct (latin_upper_ascii _ Hasc) as (Hup' & _).
  rewrite Halpha, Hup', Hidem, Hup. destruct (isalpha [c]) eqn:Hcalpha.
  - simpl. rewrite chr_letter. simpl. apply IH.
  - rewrite Hsame by done. apply IH.
Qed.

(** Within ASCII the decryption ignores case: upper-casing the ciphertext and
    the key beforehand changes nothing. *)
Theorem decrypt_ignores_case (ciphertext key : str) (caesar_shift : Z) :
  Forall (λ c, is_ascii c = true) ciphertext →
  Forall (λ c, is_ascii c = true) key →
  advanced_vigenere_decrypt (upper ciphertext) (upper key) caesar_shift
  = advanced_vigenere_decrypt ciphertext key caesar_shift.
Proof.
  intros Hct Hkey. unfold advanced_vigenere_decrypt, caesar_stage, vigenere_stage.
  rewrite (upper_ascii ciphertext Hct), (upper_ascii key Hkey).
  rewrite caesar_loop_upper by done.
  assert (upper (latin_upper <$> key) = latin_upper <$> key) as ->.
  { rewrite upper_ascii.
    - rewrite <- list_fmap_compose. apply list_fmap_ext. intros i c Hi.
      rewrite Forall_forall in Hkey.
      apply (latin_upper_ascii c), Hkey. by eapply list_elem_of_lookup_2.
    - apply Forall_fmap. eapply Forall_impl; [done|].
      intros c Hc. by apply latin_upper_ascii. }
  by destruct ciphertext, key.
Qed.

End DecryptMore.

(** ** [check_solution_complexity] *)

Section ScorerMore.
Context `{UnicodeData}.

Lemma check_solution_complexity_and (decrypted_text pokemon_key : str) :
  check_solution_complexity decrypted_text pokemon_key
  = has_indicator decrypted_text && key_allowed pokemon_key.
Proof.
  unfold check_solution_complexity, solution_score.
  by destruct (has_indicator decrypted_text), (key_allowed pokemon_key).
Qed.

Lemma upper_app (s t : str) : upper (s ++ t) = upper s ++ upper t.
Proof. unfold upper. apply bind_app. Qed.

(** A winning text still wins with any text before and after it: the scorer
    looks for the indicators anywhere in the text. *)
Theorem check_survives_context (decrypted_text pokemon_key before after : str) :
  check_solution_complexity decrypted_text pokemon_key = true →
  check_solution_complexity (before ++ decrypted_text ++ after) pokemon_key
  = true.
Proof.
  rewrite !check_solution_complexity_and, !andb_true_iff.
  intros [Hind Hkey]. split; [|done].
  apply has_indicator_spec in Hind as (indicator & b & a & Hin & Heq).
  apply has_indicator_spec. exists indicator, (upper before ++ b), (a ++ upper after).
  split; [done|]. rewrite !upper_app, Heq. by rewrite <- !app_assoc.
Qed.

End ScorerMore.

(** ** [decrypt_cipher] *)

Section DecryptHandlerMore.
Context `{UnicodeData}.

Lemma lstrip_spaces (s : str) :
  Forall (λ c, isspace_char c = true) s → lstrip s = [].
Proof. induction 1 as [|c s Hc _ IH]; simpl; [done|]. by rewrite Hc. Qed.

Lemma lstrip_app (s t : str) :
  lstrip (s ++ t) = match lstrip s with [] => lstrip t | _ => lstrip s ++ t end.
Proof.
  induction s as [|c s IH]; simpl; [done|].
  by destruct (isspace_char c).
Qed.

Lemma lstrip_Forall (P : Z → Prop) (s : str) :
  Forall P s → Forall P (lstrip s).
Proof.
  induction 1 as [|c s Hc Hs IH]; simpl; [done|].
  destruct (isspace_char c); [done | by constructor].
Qed.

Lemma strip_Forall (P : Z → Prop) (s : str) :
  Forall P s → Forall P (strip s).
Proof.
  intros Hs. unfold strip.
  by apply Forall_reverse, lstrip_Forall, Forall_reverse, lstrip_Forall.
Qed.

(** White space at both ends of a text does not count. *)
Lemma strip_padding (left_pad s right_pad : str) :
  Forall (λ c, isspace_char c = true) left_pad →
  Forall (λ c, isspace_char c = true) right_pad →
  strip (left_pad ++ s ++ right_pad) = strip s.
Proof.
  intros Hl Hr. unfold strip.
  rewrite lstrip_app, (lstrip_spaces left_pad Hl), lstrip_app.
  destruct (lstrip s) as [|c s'] eqn:Hs.
  - by rewrite (lstrip_spaces right_pad Hr).
  - rewrite reverse_app, lstrip_app.
    by rewrite (lstrip_spaces (reverse right_pad)) by by apply Forall_reverse.
Qed.

(** The answer is 400, Missing cipher text or key, exactly when the cipher
    text is absent or empty, or the key, stripped and upper-cased, is empty;
    a key of white space alone is such a key. *)
Theorem decrypt_missing_iff (data : decrypt_request) :
  (decrypt_cipher data
   = {| status := 400; payload := ErrorBody (lit "Missing cipher text or key") |}
   ↔ default [] (req_cipher_text data) = []
     ∨ upper (strip (default [] (req_key data))) = [])
  ∧ (Forall (λ c, isspace_char c = true) (default [] (req_key data)) →
     status (decrypt_cipher data) = 400).
Proof.
  unfold decrypt_cipher. cbv zeta. split.
  - destruct (bool_decide_reflect (default [] (req_cipher_text data) = []))
      as [Htext | Htext]; simpl; [by split; [left|]|].
    destruct (bool_decide_reflect
                (upper (strip (default [] (req_key data))) = []))
      as [Hkey | Hkey]; simpl; [by split; [right|]|].
    split; [|by intros [|]].
    by destruct (advanced_vigenere_decrypt _ _ _).
  - intros Hblank.
    assert (strip (default [] (req_key data)) = []) as ->.
    { unfold strip. by rewrite (lstrip_spaces _ Hblank). }
    rewrite (bool_decide_eq_true_2 (upper [] = [])) by done.
    by rewrite orb_true_r.
Qed.

(** White space around the key is ignored: padding the key leaves the answer
    as it is. *)
Theorem decrypt_key_padding (cipher_type cipher_text : option str)
    (caesar_shift : option Z) (key left_pad right_pad : str) :
  Forall (λ c, isspace_char c = true) left_pad →
  Forall (λ c, isspace_char c = true) right_pad →
  decrypt_cipher {| req_cipher_type := cipher_type;
                    req_cipher_text := cipher_text;
                    req_key := Some (left_pad ++ key ++ right_pad);
                    req_caesar_shift := caesar_shift |}
  = decrypt_cipher {| req_cipher_type := cipher_type;
                      req_cipher_text := cipher_text;
                      req_key := Some key;
                      req_caesar_shift := caesar_shift |}.
Proof.
  intros Hl Hr. unfold decrypt_cipher. simpl. by rewrite strip_padding.
Qed.

(** With an integer shift an ASCII request is answered 200 or 400: every
    ASCII letter has a one-character upper case, so the decryption returns. *)
Lemma decrypt_cipher_ascii (data : decrypt_request) :
  Forall (λ c, is_ascii c = true) (default [] (req_cipher_text data)) →
  Forall (λ c, is_ascii c = true) (default [] (req_key data)) →
  status (decrypt_cipher data) = 200 ∨ status (decrypt_cipher data) = 400.
Proof.
  intros Htext Hkey. unfold decrypt_cipher. cbv zeta.
  set (cipher_text := default [] (req_cipher_text data)) in *.
  set (key := strip (default [] (req_key data))).
  assert (Forall (λ c, is_ascii c = true) key) as Hkey' by by apply strip_Forall.
  destruct (bool_decide_reflect (cipher_text = [])) as [| Hct]; simpl;
    [by right|].
  destruct (bool_decide_reflect (upper key = [])) as [| Hk]; simpl; [by right|].
  assert (Forall upper_is_char cipher_text) as Hchars.
  { eapply Forall_impl; [exact Htext|]. intros c Hc _.
    exists (latin_upper c). by apply latin_upper_ascii. }
  assert (upper (upper key) ≠ []) as Hupper.
  { rewrite (upper_ascii key Hkey') in *. rewrite upper_ascii.
    - by destruct key.
    - apply Forall_fmap. eapply Forall_impl; [exact Hkey'|].
      intros c Hc. by apply latin_upper_ascii. }
  rewrite decrypt_runs by done.
  destruct (caesar_loop_total (default 3 (req_caesar_shift data))
              cipher_text [] Hchars) as [mid Hmid].
  fold (caesar_stage cipher_text (default 3 (req_caesar_shift data))) in Hmid.
  destruct (vigenere_after_caesar _ _ _ _ Hupper Hmid) as [out Hout].
  rewrite Hmid. simpl. rewrite Hout. by left.
Qed.

(** An ASCII request is answered 500 only through its shift: when [int]
    raises on the field [caesar_shift], the exception reaches the framework
    whatever the other fields are, also when the cipher text or the key is
    missing; when the field is absent or [int] makes an integer of it, the
    answer is 200 or 400, since every ASCII letter has a one-character upper
    case and the decryption returns. *)
Theorem decrypt_ascii_status (data : posted_request) :
  Forall (λ c, is_ascii c = true) (default [] (posted_cipher_text data)) →
  Forall (λ c, is_ascii c = true) (default [] (posted_key data)) →
  (∀ e, posted_caesar_shift data = Some (Raise e) →
   decrypt_cipher_posted data = {| status := 500; payload := Unhandled e |})
  ∧ ((∀ e, posted_caesar_shift data ≠ Some (Raise e)) →
     status (decrypt_cipher_posted data) = 200
     ∨ status (decrypt_cipher_posted data) = 400).
Proof.
  intros Htext Hkey. unfold decrypt_cipher_posted. split.
  - by intros e ->.
  - intros Hint.
    destruct (posted_caesar_shift data) as [[caesar_shift|e]|]; simpl;
      [| by destruct (Hint e) |]; by apply decrypt_cipher_ascii.
Qed.

End DecryptHandlerMore.

Section Winning.
Context `{UnicodeData}.

(** The allowed keys are capital words: stripping and upper-casing leave
    them as they are. *)
Lemma pokemon_name_normal (key : str) :
  key ∈ pokemon_names →
  strip key = key ∧ upper key = key ∧ key ≠ []
  ∧ Forall (λ c, latin_letter c = true) key.
Proof.
  intros Hin. apply list_elem_of_In in Hin. simpl in Hin.
  repeat destruct Hin as [<- | Hin]; try done;
    (split; [reflexivity|]); (split; [reflexivity|]); (split; [done|]);
    repeat constructor.
Qed.

Lemma upper_upper_latin (s : str) :
  Forall (λ c, latin_letter c = true) s → upper (upper s) = upper s.
Proof.
  intros Hs.
  assert (Forall (λ c, is_ascii c = true) s) as Hascii.
  { eapply Forall_impl; [exact Hs|]. intros c Hc.
    apply latin_letter_bounds in Hc as [_ Hc]. unfold is_ascii. lia. }
  rewrite (upper_ascii s Hascii). rewrite upper_ascii.
  - rewrite <- list_fmap_compose. apply list_fmap_ext. intros i c Hi.
    rewrite Forall_forall in Hascii.
    apply (latin_upper_ascii c), Hascii. by eapply list_elem_of_lookup_2.
  - apply Forall_fmap. eapply Forall_impl; [exact Hascii|].
    intros c Hc. by apply latin_upper_ascii.
Qed.

(** The puzzle can be won with every allowed key and every shift: a text of
    letters that holds a success indicator, encrypted with Vigenère under the
    key and Caesar under the shift, is answered 200 with the text in upper
    case, congratulations and the score High. *)
Theorem encrypted_indicator_wins (text key : str) (shift : Z) :
  Forall (λ c, latin_letter c = true) text →
  key ∈ pokemon_names →
  has_indicator text = true →
  decrypt_cipher {| req_cipher_type := None;
                    req_cipher_text := Some (reference_encrypt text key shift);
                    req_key := Some key;
                    req_caesar_shift := Some shift |}
  = {| status := 200;
       payload := DecryptBody true (upper text) true (lit "High") [] |}.
Proof.
  intros Htext Hkey Hind.
  destruct (pokemon_name_normal key Hkey) as (Hstrip & Hupper & Hne & Hletters).
  assert (text ≠ []) as Hnonempty by (by intros ->).
  assert (reference_encrypt text key shift ≠ []) as Hct.
  { intros Hnil. apply (f_equal length) in Hnil.
    unfold reference_encrypt, caesar_encrypt, vigenere_encrypt in Hnil.
    rewrite length_fmap in Hnil.
    destruct text as [|c text]; [done|]. simpl in Hnil.
    by destruct (latin_letter c). }
  unfold decrypt_cipher. simpl. rewrite Hstrip, Hupper.
  rewrite !bool_decide_eq_false_2 by done. simpl.
  rewrite decrypt_runs by done.
  unfold reference_encrypt, vigenere_encrypt, caesar_stage, vigenere_stage.
  rewrite caesar_loop_encrypt by by apply vigenere_encrypt_capital.
  simpl. rewrite (upper_latin key Hletters), vigenere_loop_encrypt by done.
  simpl. rewrite <- (upper_latin text Htext).
  assert (check_solution_complexity (upper text) key = true) as ->; [|done].
  rewrite check_solution_complexity_and. apply andb_true_iff. split.
  - unfold has_indicator in *. by rewrite upper_upper_latin.
  - apply key_allowed_spec. by rewrite Hupper.
Qed.

End Winning.

(** ** [extract_multi_lsb_audio] *)

Section BitPlaneMore.

Lemma rshift_Raise (x n : Z) (e : exn) :
  rshift x n = Raise e → e = ValueError ∧ n < 0.
Proof.
  unfold rshift. destruct (n <? 0) eqn:Hn; [|done]. intros [= <-].
  split; [done | lia].
Qed.

(** The loop adds the keys of the positions it visits, and every layer it
    adds is as long as the data. *)
Lemma lsb_loop_shape (data : list Z) (bit_positions : list Z)
    (layers0 layers : gmap string (list Z)) :
  lsb_loop data bit_positions layers0 = Ok layers →
  dom layers = dom layers0 ∪ list_to_set (layer_key <$> bit_positions)
  ∧ ∀ k layer, layers !! k = Some layer →
      layers0 !! k = Some layer ∨ length layer = length data.
Proof.
  revert layers0. induction bit_positions as [|b rest IH]; intros layers0; simpl.
  - intros [= <-]. split; [set_solver | by left].
  - destruct (rshift 16383 b) as [scale|e]; simpl; [|done].
    intros Hloop. destruct (IH _ Hloop) as [Hdom Hlen]. split.
    + rewrite Hdom, dom_insert_L. set_solver.
    + intros k layer Hk. destruct (Hlen k layer Hk) as [Hold | Hnew]; [|by right].
      destruct (decide (layer_key b = k)) as [<- | Hne].
      * rewrite lookup_insert_eq in Hold. injection Hold as <-.
        right. apply length_fmap.
      * rewrite lookup_insert_ne in Hold by done. by left.
Qed.

(** The dictionary holds one layer per requested position and no other, and
    every layer has one value per frame of the input. *)
Theorem lsb_layers_shape (data : ndarray) (bit_positions : list Z)
    (layers : gmap string (list Z)) :
  extract_multi_lsb_audio data bit_positions = Ok layers →
  dom layers = list_to_set (layer_key <$> bit_positions)
  ∧ ∀ k layer, layers !! k = Some layer → len layer = ndarray_len data.
Proof.
  unfold extract_multi_lsb_audio. intros Hloop.
  destruct (lsb_loop_shape _ _ _ _ Hloop) as [Hdom Hlen]. split.
  - rewrite Hdom. set_solver.
  - intros k layer Hk. destruct (Hlen k layer Hk) as [Hold | Hlayer]; [done|].
    unfold len. rewrite Hlayer.
    destruct data; simpl; [done|]. by rewrite length_fmap.
Qed.

(** With positions that fit the 16 bits of the samples, the extraction
    raises exactly when a requested position is negative, and what it raises
    is the [ValueError] of the shift [16383 >> bit_pos]. *)
Theorem lsb_raises_iff (data : ndarray) (bit_positions : list Z) (e : exn) :
  Forall (λ b, -32768 ≤ b ≤ 32767) bit_positions →
  extract_multi_lsb_audio data bit_positions = Raise e
  ↔ e = ValueError ∧ Exists (λ b, b < 0) bit_positions.
Proof.
  intros _.
  unfold extract_multi_lsb_audio. generalize (∅ : gmap string (list Z)).
  induction bit_positions as [|b rest IH]; intros layers0; simpl.
  - split; [done|]. intros [_ Hneg]. by apply Exists_nil in Hneg.
  - destruct (rshift 16383 b) as [scale|e'] eqn:Hscale; simpl.
    + apply rshift_ok in Hscale as [Hb _]. rewrite IH, Exists_cons.
      split; [intros [-> Hneg]; by auto|]. intros [-> [Hneg | Hneg]]; [lia|done].
    + apply rshift_Raise in Hscale as [-> Hb]. rewrite Exists_cons.
      split; [intros [= <-]; by auto | by intros [-> _]].
Qed.

Lemma scale_sign (b : Z) :
  0 ≤ b → (b ≤ 13 → 0 < Z.shiftr 16383 b) ∧ (14 ≤ b → Z.shiftr 16383 b = 0).
Proof.
  intros Hb. rewrite Z.shiftr_div_pow2 by done. split; intros Hb'.
  - apply Z.div_str_pos. split; [lia|].
    assert (2 ^ b ≤ 2 ^ 13) by (apply Z.pow_le_mono_r; lia). lia.
  - apply Z.div_small. split; [lia|].
    assert (2 ^ 14 ≤ 2 ^ b) by (apply Z.pow_le_mono_r; lia). lia.
Qed.

(** Up to position 13 a layer keeps the bit of every sample, as the sign of
    its value; from position 14 on the scale [16383 >> b] is zero and the
    layer is silent. *)
Theorem lsb_layer_sign (data : ndarray) (bit_positions : list Z) (b : Z)
    (layers : gmap string (list Z)) :
  extract_multi_lsb_audio data bit_positions = Ok layers →
  b ∈ bit_positions →
  ∃ layer,
    layers !! layer_key b = Some layer
    ∧ (b ≤ 13 → (λ v, 0 <? v) <$> layer = (λ x, Z.testbit x b) <$> to_mono data)
    ∧ (14 ≤ b → Forall (λ v, v = 0) layer).
Proof.
  unfold extract_multi_lsb_audio. intros Hloop Hb.
  destruct (lsb_loop_writes _ _ _ _ _ Hloop Hb) as [Hpos Hlayer].
  eexists. split; [done|].
  destruct (scale_sign b Hpos) as [Hlow Hhigh]. split; intros Hb'.
  - rewrite <- list_fmap_compose. apply list_fmap_ext. intros i x _. simpl.
    destruct (hidden_sample_value b x Hpos) as [-> _]. specialize (Hlow Hb').
    destruct (Z.testbit x b); simpl Z.b2z; lia.
  - apply Forall_fmap, Forall_true. intros x. simpl.
    destruct (hidden_sample_value b x Hpos) as [-> _]. rewrite (Hhigh Hb'). lia.
Qed.

(** Mixing a frame of 16-bit samples to mono stays within 16 bits: the mean
    is the quotient of the sum by the number of channels, rounded toward
    zero, and is never wrapped. *)
Theorem mean_int16_in_range (row : list Z) :
  row ≠ [] →
  Forall (λ x, -32768 ≤ x ≤ 32767) row →
  mean_int16 row = Z.quot (foldr Z.add 0 row) (len row)
  ∧ -32768 ≤ mean_int16 row ≤ 32767.
Proof.
  intros Hne Hrow.
  assert (-32768 * len row ≤ foldr Z.add 0 row ≤ 32767 * len row) as Hsum.
  { clear Hne. unfold len. induction Hrow as [|x row Hx _ IH]; simpl; lia. }
  assert (0 < len row) as Hlen by (unfold len; destruct row; [done | simpl; lia]).
  assert (-32768 ≤ Z.quot (foldr Z.add 0 row) (len row) ≤ 32767) as Hq.
  { split.
    - apply Z.quot_le_lower_bound; lia.
    - apply Z.quot_le_upper_bound; lia. }
  unfold mean_int16. rewrite wrap16_small by lia. done.
Qed.

End BitPlaneMore.

(** ** [extract_frequency_domain_data] *)

Section FrequencyMore.
Context `{NumPy}.

(** A sample rate of zero makes [1/sample_rate] raise, and the fingerprint
    is the literal fallback. *)
Theorem fingerprint_zero_rate (data : ndarray) :
  extract_frequency_domain_data data 0 = [0; 1; 0; 1].
Proof.
  unfold extract_frequency_domain_data, frequency_body.
  by destruct (np_phase data).
Qed.

(** An empty signal has an empty frequency axis, on which [np.argmin]
    raises: the fingerprint is the literal fallback. *)
Theorem fingerprint_empty_signal (data : ndarray) (sample_rate : Z) :
  ndarray_len data = 0 →
  extract_frequency_domain_data data sample_rate = [0; 1; 0; 1].
Proof.
  intros Hlen. unfold extract_frequency_domain_data, frequency_body.
  destruct (np_phase data) as [phase|]; simpl; [|done].
  destruct (true_div 1 sample_rate) as [d|]; simpl; [|done].
  destruct (np_fftfreq (ndarray_len data) d) as [freq_bins|] eqn:Hbins;
    simpl; [|done].
  apply np_fftfreq_shape in Hbins. rewrite Hlen in Hbins.
  destruct freq_bins; [done | unfold len in Hbins; simpl in Hbins; lia].
Qed.

Lemma int_of_wide_row (item : np_item) (k : float) :
  wide_row item → int_of_item (item_mul item k) = Raise TypeError.
Proof.
  intros (xs & -> & Hxs). simpl. by destruct xs as [|x [|x' xs]]; simpl in *; try lia.
Qed.

(** A signal with several channels always gets the literal fallback: the
    phase entry at a bin is then a row, which [int] refuses. *)
Theorem fingerprint_multichannel (data : ndarray) (sample_rate : Z)
    (phase : list np_item) :
  np_phase data = Ok phase →
  Forall wide_row phase →
  extract_frequency_domain_data data sample_rate = [0; 1; 0; 1].
Proof.
  intros Hphase Hrows. unfold extract_frequency_domain_data, frequency_body.
  rewrite Hphase. simpl.
  destruct (true_div 1 sample_rate) as [d|]; simpl; [|done].
  destruct (np_fftfreq (ndarray_len data) d) as [freq_bins|] eqn:Hbins;
    simpl; [|done].
  destruct (argmin (distances freq_bins 440)) as [bin|] eqn:Hbin; simpl; [|done].
  apply np_phase_shape in Hphase. apply np_fftfreq_shape in Hbins.
  apply argmin_lt in Hbin. rewrite distances_length in Hbin.
  assert (bin < length phase)%nat as Hlt by (unfold len in *; lia).
  rewrite bool_decide_eq_true_2 by done.
  destruct (lookup_lt_is_Some_2 phase bin Hlt) as [item Hitem].
  unfold getitem. rewrite Hitem. simpl.
  rewrite int_of_wide_row; [done|].
  rewrite Forall_forall in Hrows. apply Hrows. by eapply list_elem_of_lookup_2.
Qed.

End FrequencyMore.

(** ** [extract_complex_metadata] *)

Section BundleMore.

Lemma gather_tags_textless (audio_tags : tags) (keys : list string) (acc : str) :
  Exists (textless audio_tags) keys →
  gather_tags audio_tags keys acc = Raise IndexError.
Proof.
  revert acc. induction keys as [|key rest IH]; intros acc Hex; simpl.
  - by apply Exists_nil in Hex.
  - destruct (audio_tags !! key) as [[|text texts]|] eqn:Hkey; [done| |].
    + apply IH. apply Exists_cons in Hex as [Hex | Hex]; [|done].
      unfold textless in Hex. congruence.
    + apply IH. apply Exists_cons in Hex as [Hex | Hex]; [|done].
      unfold textless in Hex. congruence.
Qed.

Lemma gather_tags_texts (audio_tags : tags) (keys : list string) (acc : str) :
  Forall (λ key, ¬ textless audio_tags key) keys →
  gather_tags audio_tags keys acc
  = Ok (acc ++ concat (omap (tag_text audio_tags) keys)).
Proof.
  intros Hall. revert acc.
  induction Hall as [|key rest Hkey _ IH]; intros acc; simpl.
  - by rewrite app_nil_r.
  - unfold textless in Hkey.
    assert (tag_text audio_tags key = audio_tags !! key ≫= head) as -> by done.
    destruct (audio_tags !! key) as [[|text texts]|]; simpl; [done| |].
    + by rewrite IH, <- app_assoc.
    + apply IH.
Qed.

Lemma initial_ciphers_lookups (now : datetime) :
  dom (initial_ciphers now)
  = {["primary"; "secondary"; "tertiary"; "quaternary"]}
  ∧ initial_ciphers now !! "primary" = Some (lit "NKOOR_IURP_JLUDWLQD_UHDOP")
  ∧ initial_ciphers now !! "secondary" = Some (lit "FDHVDU_FLSKHU_ZLWK_NHBZRUG")
  ∧ initial_ciphers now !! "tertiary" = Some default_tertiary.
Proof.
  unfold initial_ciphers. split; [|done].
  rewrite !dom_insert_L, dom_empty_L. set_solver.
Qed.

(** The bundle always has its four fields and no other, and the primary and
    secondary fields are the two literals, whatever the file and its tags. *)
Theorem bundle_fields (now : datetime) (audio : result (option tags)) :
  dom (extract_complex_metadata now audio)
  = {["primary"; "secondary"; "tertiary"; "quaternary"]}
  ∧ extract_complex_metadata now audio !! "primary"
    = Some (lit "NKOOR_IURP_JLUDWLQD_UHDOP")
  ∧ extract_complex_metadata now audio !! "secondary"
    = Some (lit "FDHVDU_FLSKHU_ZLWK_NHBZRUG").
Proof.
  unfold extract_complex_metadata.
  destruct (initial_ciphers_lookups now) as (Hdom & Hp & Hs & _).
  generalize dependent (initial_ciphers now). intros ciphers Hdom Hp Hs.
  destruct audio as [[audio_tags|]|e]; unfold mbind, result_bind, try_except;
    try done.
  destruct (bool_decide (audio_tags = ∅)); [done|].
  destruct (gather_tags audio_tags _ []) as [text|e]; [|done].
  destruct (bool_decide (text = [])); [done|].
  rewrite dom_insert_L, !lookup_insert_ne by done. split; [|done].
  rewrite Hdom. set_solver.
Qed.

(** The tertiary field is the literal default when the file cannot be
    opened, has no tags, has one of the four tags without a text (the error
    is swallowed, and with it the texts of the other tags), or has no text in
    the four tags; otherwise it is the first texts of the four tags that the
    file has, in the order title, album, artist, genre. *)
Theorem tertiary_field (now : datetime) :
  (∀ e, tertiary now (Raise e) = Some default_tertiary)
  ∧ tertiary now (Ok None) = Some default_tertiary
  ∧ ∀ audio_tags,
      (Exists (textless audio_tags) tag_keys →
       tertiary now (Ok (Some audio_tags)) = Some default_tertiary)
      ∧ (metadata_text audio_tags = [] →
         tertiary now (Ok (Some audio_tags)) = Some default_tertiary)
      ∧ (Forall (λ key, ¬ textless audio_tags key) tag_keys →
         metadata_text audio_tags ≠ [] →
         tertiary now (Ok (Some audio_tags)) = Some (metadata_text audio_tags)).
Proof.
  unfold tertiary, extract_complex_metadata.
  destruct (initial_ciphers_lookups now) as (_ & _ & _ & Ht).
  generalize dependent (initial_ciphers now). intros ciphers Ht.
  split; [done|]. split; [done|]. intros audio_tags.
  unfold mbind, result_bind, try_except. fold tag_keys.
  destruct (bool_decide_reflect (audio_tags = ∅)) as [-> | Hne].
  { split; [done|]. split; [done|]. intros _ Htext. by destruct Htext. }
  split; [|split].
  - intros Hex. by rewrite gather_tags_textless.
  - intros Hnil.
    destruct (decide (Exists (textless audio_tags) tag_keys)) as [Hex | Hex].
    + by rewrite gather_tags_textless.
    + apply not_Exists_Forall in Hex; [|apply _].
      rewrite gather_tags_texts by done. fold (metadata_text audio_tags).
      by rewrite Hnil.
  - intros Hall Htext. rewrite gather_tags_texts by done.
    fold (metadata_text audio_tags). simpl.
    rewrite bool_decide_eq_false_2 by done. apply lookup_insert_eq.
Qed.

End BundleMore.

(** ** [generate_advanced_spectrogram] *)

Section RendererProps.
Context `{NumPy} `{Matplotlib}.

Lemma slice_to_min {A} (a : list A) (stop : Z) :
  0 ≤ stop → slice_to a (Z.min (len a) stop) = take (Z.to_nat stop) a.
Proof.
  intros Hstop. unfold slice_to, len.
  rewrite (proj2 (Z.leb_le 0 (Z.min (Z.of_nat (length a)) stop)))
    by (apply Z.min_glb; lia).
  destruct (Z.le_gt_cases stop (Z.of_nat (length a))) as [Hle | Hgt].
  - by rewrite Z.min_r by done.
  - rewrite Z.min_l by lia. rewrite Nat2Z.id.
    rewrite take_ge by lia. by rewrite take_ge by lia.
Qed.

(** The images come all or none.  The result always has the three fields.
    When the two spectrograms, the transform and the plot of its first 1000
    phase angles all return, the result holds their three images; when any
    one of the four raises, the first spectrogram or a later step, every
    field is the empty string, and an image rendered before is dropped. *)
Theorem spectrograms_all_or_nothing (audio_data : list Z) (sample_rate : Z) :
  let shown :=
    slice_to audio_data (Z.min (len audio_data) (sample_rate * 30)) in
  let transformed := Mono (slice_to shown (Z.min (len shown) 50000)) in
  dom (generate_advanced_spectrogram audio_data sample_rate)
  = {["primary"; "high_res"; "phase"]}
  ∧ (∀ primary high_res phase image,
       specgram_png shown sample_rate "plasma" 1024 512 = Ok primary →
       specgram_png shown sample_rate "viridis" 2048 1024 = Ok high_res →
       np_phase transformed = Ok phase →
       plot_png (slice_to phase 1000) = Ok image →
       generate_advanced_spectrogram audio_data sample_rate
       = <["phase" := image]>
           (<["high_res" := high_res]> (<["primary" := primary]> ∅)))
  ∧ ((∃ e, specgram_png shown sample_rate "plasma" 1024 512 = Raise e)
     ∨ (∃ e, specgram_png shown sample_rate "viridis" 2048 1024 = Raise e)
     ∨ (∃ e, np_phase transformed = Raise e)
     ∨ (∃ phase e, np_phase transformed = Ok phase
                   ∧ plot_png (slice_to phase 1000) = Raise e) →
     generate_advanced_spectrogram audio_data sample_rate = no_spectrograms).
Proof.
  intros shown transformed.
  unfold generate_advanced_spectrogram. cbv zeta. fold shown. fold transformed.
  destruct (specgram_png shown _ "plasma" _ _) as [primary|e1]; simpl.
  2: { split; [done|]. split; [done|]. done. }
  destruct (specgram_png shown _ "viridis" _ _) as [high_res|e2]; simpl.
  2: { split; [done|]. split; [done|]. done. }
  destruct (np_phase transformed) as [phase|e3]; simpl.
  2: { split; [done|]. split; [done|]. done. }
  destruct (plot_png (slice_to phase 1000)) as [image|e4] eqn:Hplot; simpl.
  2: { split; [done|]. split; [|done].
       intros ? ? ? ? _ _ [= <-]. by rewrite Hplot. }
  split; [|split].
  - rewrite !dom_insert_L, dom_empty_L. set_solver.
  - intros ? ? ? ? [= <-] [= <-] [= <-]. rewrite Hplot. by intros [= <-].
  - intros [[e He] | [[e He] | [[e He] | (phase' & e & [= <-] & He)]]];
      try done. by rewrite Hplot in He.
Qed.

(** Only the first thirty seconds of the signal reach the images: cutting
    the signal to [30 * sample_rate] samples beforehand changes nothing. *)
Theorem spectrograms_first_30_seconds (audio_data : list Z) (sample_rate : Z) :
  0 ≤ sample_rate →
  generate_advanced_spectrogram (take (Z.to_nat (30 * sample_rate)) audio_data)
                                sample_rate
  = generate_advanced_spectrogram audio_data sample_rate.
Proof.
  intros Hrate. unfold generate_advanced_spectrogram. cbv zeta.
  rewrite !(slice_to_min _ (sample_rate * 30)) by lia.
  replace (sample_rate * 30) with (30 * sample_rate) by lia.
  by rewrite take_take, Nat.min_id.
Qed.

End RendererProps.

(** ** [upload_file] *)

Section UploadMore.
Context `{UnicodeData} `{NumPy}.

(** The three layers the handler asks for are always extracted, and the
    layer of bit 0 is the parity layer. *)
Lemma upload_layers (data : ndarray) :
  ∃ lsb_layers,
    extract_multi_lsb_audio data [0; 1; 2] = Ok lsb_layers
    ∧ dict_get lsb_layers "layer_0" = Ok (parity_layer data).
Proof.
  destruct (lsb_loop_total (to_mono data) [0; 1; 2] ∅) as [layers Hloop].
  { repeat constructor; lia. }
  exists layers. split; [done|].
  destruct (lsb_loop_writes _ _ _ _ 0 Hloop) as [_ Hlayer]; [by left|].
  unfold dict_get. change (layer_key 0) with "layer_0"%string in Hlayer.
  rewrite Hlayer. f_equal. unfold parity_layer.
  apply list_fmap_ext. intros i x _.
  destruct (hidden_sample_value 0 x) as [-> _]; [done|].
  rewrite Z.bit0_odd. by destruct (Z.odd x).
Qed.

(** When the upload decodes and the temporary file unlinks, the answer is
    200: the images are rendered from the parity layer of the mono mix, the
    fingerprint is taken from the data as decoded, channels and all, and no
    step of the analysis can fail the request. *)
Theorem upload_answer (env : upload_env) (sample_rate : Z) (data : ndarray) :
  env_wav env = Ok (sample_rate, data) →
  env_unlink env = Ok () →
  upload_processing env
  = {| status := 200;
       payload :=
         UploadBody true
           (env_generate_advanced_spectrogram env (parity_layer data) sample_rate)
           (extract_complex_metadata (env_now env) (env_tags env))
           (extract_frequency_domain_data data sample_rate)
           (lit "Multiple layers detected. Analyze ALL spectrograms and consider time-based elements.")
           (lit "Some ciphers use multi-stage decryption. Current time may be relevant.") |}.
Proof.
  intros Hwav Hunlink. unfold upload_processing. rewrite Hwav. cbn [mbind result_bind status fst snd].
  destruct (upload_layers data) as (layers & -> & Hlayer). cbn [mbind result_bind status fst snd].
  rewrite Hlayer. cbn [mbind result_bind status fst snd]. by rewrite Hunlink.
Qed.

(** An upload of a file of 16-bit samples is answered 200 exactly when the
    form has a file whose name ends in .wav, in any case, the file decodes,
    and the temporary file unlinks. *)
Theorem upload_status_200_iff (audiofile : option str) (env : upload_env) :
  sixteen_bit_upload env →
  status (upload_file audiofile env) = 200
  ↔ (∃ filename, audiofile = Some filename
       ∧ endswith (lower filename) (lit ".wav") = true)
    ∧ (∃ sample_rate data, env_wav env = Ok (sample_rate, data))
    ∧ env_unlink env = Ok ().
Proof.
  intros _.
  assert (status (upload_processing env) = 200
          ↔ (∃ sample_rate data, env_wav env = Ok (sample_rate, data))
            ∧ env_unlink env = Ok ()) as Hprocessing.
  { unfold upload_processing.
    destruct (env_wav env) as [[sample_rate data]|e] eqn:Hwav; cbn [mbind result_bind status fst snd].
    - destruct (upload_layers data) as (layers & -> & Hlayer). cbn [mbind result_bind status fst snd].
      rewrite Hlayer. cbn [mbind result_bind status fst snd].
      destruct (env_unlink env) as [[]|e]; cbn [mbind result_bind status fst snd].
      + split; [eauto|done].
      + split; [done | by intros [_ ?]].
    - split; [done | by intros [(? & ? & ?) _]]. }
  unfold upload_file. destruct audiofile as [filename|]; cbn [mbind result_bind status fst snd].
  - destruct (bool_decide_reflect (filename = [])) as [-> | Hname]; cbn [mbind result_bind status fst snd].
    + split; [done|]. by intros [(? & [= <-] & ?) _].
    + destruct (endswith (lower filename) (lit ".wav")) eqn:Hext; cbn [mbind result_bind status fst snd].
      * rewrite Hprocessing. split; [by eauto 6|]. by intros [_ ?].
      * split; [done|]. intros [(? & [= <-] & ?) _]. congruence.
  - split; [done|]. by intros [(? & ? & _) _].
Qed.

(** For an upload of a file of 16-bit samples, the handler asks [os.unlink]
    for the temporary file exactly when the file decoded; when decoding
    raises it answers 500 and leaves the file. *)
Theorem upload_unlinks_iff (env : upload_env) :
  sixteen_bit_upload env →
  snd (upload_processing_io env) = upload_processing env
  ∧ (UnlinkTemp ∈ fst (upload_processing_io env)
     ↔ ∃ sample_rate data, env_wav env = Ok (sample_rate, data))
  ∧ (∀ e, env_wav env = Raise e →
     upload_processing_io env
     = ([SaveAndDecode], {| status := 500; payload := ProcessingFailed e |})).
Proof.
  intros _.
  unfold upload_processing_io, upload_processing.
  destruct (env_wav env) as [[sample_rate data]|e] eqn:Hwav; cbn [mbind result_bind status fst snd].
  - destruct (upload_layers data) as (layers & -> & Hlayer). cbn [mbind result_bind status fst snd].
    rewrite Hlayer. cbn [mbind result_bind status fst snd].
    destruct (env_unlink env) as [[]|e]; cbn [mbind result_bind status fst snd];
      (split; [done|]); (split; [|done]); (split; [by eauto|]);
      intros _; set_solver.
  - split; [done|]. split; [|by intros ? [= <-]].
    split; [set_solver | by intros (? & ? & ?)].
Qed.

End UploadMore.

(** ** Decryption, then the reference encryption *)

Section RoundTripBack.
Context `{UnicodeData}.

Lemma latin_letter_alpha (c : Z) :
  latin_letter c = true → isalpha [c] = true ∧ upper [c] = [latin_upper c].
Proof.
  intros Hc. pose proof (latin_letter_bounds c Hc) as [_ Hascii].
  assert (is_ascii c = true) as Hc' by (unfold is_ascii; lia).
  split; [|by apply latin_upper_ascii].
  rewrite isalpha_single. unfold isalpha_char. by rewrite Hc'.
Qed.

Lemma written_is_capital (x : Z) :
  latin_letter (x `mod` 26 + offset) = true
  ∧ latin_upper (x `mod` 26 + offset) = x `mod` 26 + offset.
Proof.
  pose proof (Z.mod_pos_bound x 26 ltac:(lia)).
  unfold latin_letter, latin_upper, ascii_isupper, ascii_islower, offset.
  replace (65 <=? x `mod` 26 + 65) with true by lia.
  replace (x `mod` 26 + 65 <=? 90) with true by lia.
  by replace (97 <=? x `mod` 26 + 65) with false by lia.
Qed.

(** The Caesar stage on a text of letters. *)
Lemma caesar_loop_letters (s : Z) (chars acc : str) :
  Forall (λ c, latin_letter c = true) chars →
  caesar_loop s chars acc
  = Ok (acc ++ ((λ c, (latin_upper c - offset - s) `mod` 26 + offset) <$> chars)).
Proof.
  intros Hchars. revert acc.
  induction Hchars as [|c chars Hc _ IH]; intros acc; simpl;
    [by rewrite app_nil_r|].
  destruct (latin_letter_alpha c Hc) as [-> ->]. simpl.
  rewrite chr_letter. simpl. by rewrite IH, <- app_assoc.
Qed.

(** The Vigenère stage on written letters returns a text that the Vigenère
    encryption takes back to them. *)
Lemma vigenere_loop_invertible (key : str) (xs : list Z) (acc : str)
    (key_index : Z) :
  key ≠ [] →
  ∃ out,
    vigenere_loop (latin_upper <$> key)
                  ((λ x, x `mod` 26 + offset) <$> xs) acc key_index
    = Ok (acc ++ out)
    ∧ vigenere_encrypt_from key out key_index
      = (λ x, x `mod` 26 + offset) <$> xs.
Proof.
  intros Hkey. revert acc key_index.
  assert (0 < len key) as Hlen.
  { unfold len. destruct key; [done | simpl; lia]. }
  assert (len (latin_upper <$> key) = len key) as Hlenu.
  { unfold len. by rewrite length_fmap. }
  induction xs as [|x xs IH]; intros acc ki; simpl.
  - exists []. by rewrite app_nil_r.
  - destruct (written_letter x) as [-> ->]. simpl.
    unfold mod_. rewrite Hlenu. replace (len key =? 0) with false by lia. simpl.
    pose proof (Z.mod_pos_bound ki (len key) Hlen) as Hbound.
    unfold index.
    destruct (lookup_lt_is_Some_2 (latin_upper <$> key)
                (Z.to_nat (ki `mod` len key))) as [kch Hk].
    { rewrite length_fmap. unfold len in *. lia. }
    rewrite Hk. simpl. rewrite chr_letter. simpl.
    destruct (IH (acc ++ [(x `mod` 26 + offset - offset - (kch - offset))
                            `mod` 26 + offset]) (ki + 1))
      as (out & Hloop & Hback).
    eexists (_ :: out). split.
    { etransitivity; [exact Hloop|]. by rewrite <- app_assoc. }
    simpl.
    destruct (written_is_capital (x `mod` 26 + offset - offset - (kch - offset)))
      as [-> ->].
    rewrite Hback. f_equal. unfold key_shift. rewrite Hk. simpl.
    replace (_ `mod` 26 + offset - offset + (kch - offset))
      with ((x `mod` 26 + offset - offset - (kch - offset)) `mod` 26
            + (kch - offset)) by lia.
    rewrite Zplus_mod_idemp_l.
    replace (x `mod` 26 + offset - offset - (kch - offset) + (kch - offset))
      with (x `mod` 26) by lia.
    by rewrite Z.mod_mod by lia.
Qed.

(** On texts of letters the decryption is undone by the reference
    encryption: decrypting and encrypting again, with the same key and shift,
    gives the ciphertext back in upper case.  With the round trip the other
    way, decryption is one-to-one on such texts. *)
Theorem encrypt_of_decrypt (ciphertext key : str) (shift : Z) :
  Forall (λ c, latin_letter c = true) ciphertext →
  key ≠ [] →
  Forall (λ c, latin_letter c = true) key →
  ∃ out,
    advanced_vigenere_decrypt ciphertext key shift = Ok out
    ∧ reference_encrypt out key shift = upper ciphertext.
Proof.
  intros Hct Hkey Hletters.
  destruct (decide (ciphertext = [])) as [-> | Hne]; [by exists []|].
  rewrite decrypt_runs by done. unfold caesar_stage, vigenere_stage.
  rewrite caesar_loop_letters by done. simpl.
  rewrite (upper_latin key Hletters).
  replace ((λ c, (latin_upper c - offset - shift) `mod` 26 + offset)
             <$> ciphertext)
    with ((λ x, x `mod` 26 + offset)
            <$> ((λ c, latin_upper c - offset - shift) <$> ciphertext))
    by by rewrite <- list_fmap_compose.
  destruct (vigenere_loop_invertible key
              ((λ c, latin_upper c - offset - shift) <$> ciphertext) [] 0 Hkey)
    as (out & -> & Hback).
  exists out. split; [done|].
  unfold reference_encrypt, vigenere_encrypt. rewrite Hback.
  rewrite (upper_latin ciphertext Hct). unfold caesar_encrypt.
  rewrite <- !list_fmap_compose. apply list_fmap_ext. intros i c Hi. simpl.
  assert (latin_letter c = true) as Hc.
  { rewrite Forall_forall in Hct. apply Hct. by eapply list_elem_of_lookup_2. }
  unfold caesar_encrypt_char.
  destruct (written_is_capital (latin_upper c - offset - shift)) as [-> ->].
  replace (_ `mod` 26 + offset - offset + shift)
    with ((latin_upper c - offset - shift) `mod` 26 + shift) by lia.
  rewrite Zplus_mod_idemp_l.
  replace (latin_upper c - offset - shift + shift) with (latin_upper c - offset)
    by lia.
  symmetry. apply capital_is_written. by apply latin_letter_bounds.
Qed.

End RoundTripBack.

(** * Further instances *)

(** Witness of [decrypt_raises_iff]: a sharp s among the letters. *)
Lemma decrypt_raises_iff_witness :
  lit "A" ≠ [] ∧ @upper sharp_s_tables (lit "A") ≠ []
  ∧ @advanced_vigenere_decrypt sharp_s_tables [71; 82; 79; 223] (lit "A") 3
    = Raise TypeError.
Proof.
  assert (lit "A" ≠ []) as Hkey by discriminate.
  assert (@upper sharp_s_tables (lit "A") ≠ []) as Hupper by discriminate.
  refine (conj Hkey (conj Hupper _)).
  apply (proj2 (@decrypt_raises_iff sharp_s_tables [71; 82; 79; 223] (lit "A")
                  3 TypeError Hkey Hupper)).
  split; [reflexivity|].
  do 3 apply Exists_cons_tl. apply Exists_cons_hd.
  split; [reflexivity | discriminate].
Defined.

(** Witness of [decrypt_total_shift]: the C of AB-CD under XY and shift 3 is
    the third letter, meets X, and moves back by 3 + 23. *)
Lemma decrypt_total_shift_witness :
  lit "XY" ≠ []
  ∧ ∃ u kch,
      @upper ascii_tables [67] = [u]
      ∧ @upper ascii_tables (lit "XY")
          !! Z.to_nat (@alpha_rank ascii_tables (lit "AB-CD") 3
                       `mod` len (@upper ascii_tables (lit "XY")))
        = Some kch
      ∧ lit "AA-CC" !! 3%nat
        = Some ((u - offset - (3 + (kch - offset))) `mod` 26 + offset).
Proof.
  assert (lit "XY" ≠ []) as Hkey by discriminate.
  refine (conj Hkey _).
  exact (@decrypt_total_shift ascii_tables (lit "AB-CD") (lit "XY") 3
           (lit "AA-CC") 3 67 Hkey eq_refl eq_refl eq_refl).
Defined.

(** Witness of [decrypt_output_alphabet]. *)
Lemma decrypt_output_alphabet_witness :
  lit "xy" ≠ []
  ∧ Forall2 (@decrypted_char ascii_tables) (lit "de-FG!") (lit "DD-FF!").
Proof.
  assert (lit "xy" ≠ []) as Hkey by discriminate.
  refine (conj Hkey _).
  exact (@decrypt_output_alphabet ascii_tables (lit "de-FG!") (lit "xy") 3
           (lit "DD-FF!") Hkey eq_refl).
Defined.

(** Witness of [decrypt_ignores_case]. *)
Lemma decrypt_ignores_case_witness :
  Forall (λ c, is_ascii c = true) (lit "de-FG!")
  ∧ Forall (λ c, is_ascii c = true) (lit "xy")
  ∧ @advanced_vigenere_decrypt ascii_tables
      (@upper ascii_tables (lit "de-FG!")) (@upper ascii_tables (lit "xy")) 3
    = @advanced_vigenere_decrypt ascii_tables (lit "de-FG!") (lit "xy") 3.
Proof.
  assert (Forall (λ c, is_ascii c = true) (lit "de-FG!")) as Hct
    by (repeat constructor).
  assert (Forall (λ c, is_ascii c = true) (lit "xy")) as Hkey
    by (repeat constructor).
  exact (conj Hct (conj Hkey
           (@decrypt_ignores_case ascii_tables _ _ 3 Hct Hkey))).
Defined.

(** Witness of [encrypt_of_decrypt]. *)
Lemma encrypt_of_decrypt_witness :
  Forall (λ c, latin_letter c = true) (lit "ULMYV")
  ∧ lit "Key" ≠ []
  ∧ Forall (λ c, latin_letter c = true) (lit "Key")
  ∧ ∃ out,
      @advanced_vigenere_decrypt ascii_tables (lit "ULMYV") (lit "Key") 3 = Ok out
      ∧ reference_encrypt out (lit "Key") 3 = @upper ascii_tables (lit "ULMYV").
Proof.
  assert (Forall (λ c, latin_letter c = true) (lit "ULMYV")) as Hct
    by (repeat constructor).
  assert (lit "Key" ≠ []) as Hkey by discriminate.
  assert (Forall (λ c, latin_letter c = true) (lit "Key")) as Hletters
    by (repeat constructor).
  exact (conj Hct (conj Hkey (conj Hletters
           (@encrypt_of_decrypt ascii_tables _ _ 3 Hct Hkey Hletters)))).
Defined.

(** Witness of [check_survives_context]. *)
Lemma check_survives_context_witness :
  @check_solution_complexity ascii_tables (lit "ghost") (lit "rotom") = true
  ∧ @check_solution_complexity ascii_tables
      (lit "a " ++ lit "ghost" ++ lit " story") (lit "rotom") = true.
Proof.
  assert (@check_solution_complexity ascii_tables (lit "ghost") (lit "rotom")
          = true) as Hwin by reflexivity.
  exact (conj Hwin
           (@check_survives_context ascii_tables _ _ (lit "a ") (lit " story")
              Hwin)).
Defined.

(** Witness of [decrypt_key_padding]. *)
Lemma decrypt_key_padding_witness :
  Forall (λ c, @isspace_char ascii_tables c = true) (lit "  ")
  ∧ Forall (λ c, @isspace_char ascii_tables c = true) [9; 10]
  ∧ @decrypt_cipher ascii_tables
      {| req_cipher_type := None; req_cipher_text := Some (lit "de-FG!");
         req_key := Some (lit "  " ++ lit "xy" ++ [9; 10]);
         req_caesar_shift := None |}
    = @decrypt_cipher ascii_tables
        {| req_cipher_type := None; req_cipher_text := Some (lit "de-FG!");
           req_key := Some (lit "xy"); req_caesar_shift := None |}.
Proof.
  assert (Forall (λ c, @isspace_char ascii_tables c = true) (lit "  ")) as Hl
    by (repeat constructor).
  assert (Forall (λ c, @isspace_char ascii_tables c = true) [9; 10]) as Hr
    by (repeat constructor).
  exact (conj Hl (conj Hr
           (@decrypt_key_padding ascii_tables None (Some (lit "de-FG!")) None
              (lit "xy") _ _ Hl Hr))).
Defined.

(** Witness of [decrypt_ascii_status]: a request without cipher text and
    key, whose shift is a text on which [int] raises. *)
Lemma decrypt_ascii_status_witness :
  Forall (λ c, is_ascii c = true) []
  ∧ @decrypt_cipher_posted ascii_tables
      {| posted_cipher_type := None; posted_cipher_text := None;
         posted_key := None; posted_caesar_shift := Some (Raise ValueError) |}
    = {| status := 500; payload := Unhandled ValueError |}
  ∧ (status (@decrypt_cipher_posted ascii_tables
               {| posted_cipher_type := None;
                  posted_cipher_text := Some (lit "de-FG!");
                  posted_key := Some (lit " xy ");
                  posted_caesar_shift := Some (Ok 3) |}) = 200
     ∨ status (@decrypt_cipher_posted ascii_tables
                 {| posted_cipher_type := None;
                    posted_cipher_text := Some (lit "de-FG!");
                    posted_key := Some (lit " xy ");
                    posted_caesar_shift := Some (Ok 3) |}) = 400).
Proof.
  assert (Forall (λ c, is_ascii c = true) []) as Hnone by constructor.
  assert (Forall (λ c, is_ascii c = true) (lit "de-FG!")) as Htext
    by (repeat constructor).
  assert (Forall (λ c, is_ascii c = true) (lit " xy ")) as Hkey
    by (repeat constructor).
  refine (conj Hnone (conj _ _)).
  - exact (proj1 (@decrypt_ascii_status ascii_tables
                    {| posted_cipher_type := None; posted_cipher_text := None;
                       posted_key := None;
                       posted_caesar_shift := Some (Raise ValueError) |}
                    Hnone Hnone) ValueError eq_refl).
  - apply (proj2 (@decrypt_ascii_status ascii_tables
                    {| posted_cipher_type := None;
                       posted_cipher_text := Some (lit "de-FG!");
                       posted_key := Some (lit " xy ");
                       posted_caesar_shift := Some (Ok 3) |}
                    Htext Hkey)).
    intros e. discriminate.
Defined.

(** Witness of [encrypted_indicator_wins]: GHOSTLY under ROTOM, shift 7. *)
Lemma encrypted_indicator_wins_witness :
  Forall (λ c, latin_letter c = true) (lit "Ghostly")
  ∧ lit "ROTOM" ∈ pokemon_names
  ∧ @has_indicator ascii_tables (lit "Ghostly") = true
  ∧ @decrypt_cipher ascii_tables
      {| req_cipher_type := None;
         req_cipher_text := Some (reference_encrypt (lit "Ghostly") (lit "ROTOM") 7);
         req_key := Some (lit "ROTOM");
         req_caesar_shift := Some 7 |}
    = {| status := 200;
         payload := DecryptBody true (@upper ascii_tables (lit "Ghostly")) true
                      (lit "High") [] |}.
Proof.
  assert (Forall (λ c, latin_letter c = true) (lit "Ghostly")) as Htext
    by (repeat constructor).
  assert (lit "ROTOM" ∈ pokemon_names) as Hkey
    by (do 6 apply list_elem_of_further; apply list_elem_of_here).
  assert (@has_indicator ascii_tables (lit "Ghostly") = true) as Hind
    by reflexivity.
  exact (conj Htext (conj Hkey (conj Hind
           (@encrypted_indicator_wins ascii_tables _ _ 7 Htext Hkey Hind)))).
Defined.

(** Witness of [lsb_layers_shape]: two frames of stereo, two positions. *)
Lemma lsb_layers_shape_witness :
  extract_multi_lsb_audio (Frames [[1; 3]; [-4; 7]]) [0; 5]
  = Ok (<[layer_key 5 := [-511; -511]]> (<[layer_key 0 := [-16383; 16383]]> ∅))
  ∧ dom (<[layer_key 5 := [-511; -511]]>
           (<[layer_key 0 := [-16383; 16383]]> (∅ : gmap string (list Z))))
    = list_to_set (layer_key <$> [0; 5])
  ∧ ∀ k layer,
      <[layer_key 5 := [-511; -511]]>
        (<[layer_key 0 := [-16383; 16383]]> (∅ : gmap string (list Z))) !! k
      = Some layer →
      len layer = ndarray_len (Frames [[1; 3]; [-4; 7]]).
Proof.
  assert (extract_multi_lsb_audio (Frames [[1; 3]; [-4; 7]]) [0; 5]
          = Ok (<[layer_key 5 := [-511; -511]]>
                  (<[layer_key 0 := [-16383; 16383]]> ∅))) as Hrun
    by reflexivity.
  exact (conj Hrun (lsb_layers_shape _ _ _ Hrun)).
Defined.

(** Witness of [lsb_layer_sign]: bit 1 of the samples 2, 5 and -2. *)
Lemma lsb_layer_sign_witness :
  extract_multi_lsb_audio (Mono [2; 5; -2]) [1]
  = Ok (<[layer_key 1 := [8191; -8191; 8191]]> ∅)
  ∧ 1 ∈ [1]
  ∧ ∃ layer,
      <[layer_key 1 := [8191; -8191; 8191]]> (∅ : gmap string (list Z))
        !! layer_key 1 = Some layer
      ∧ (1 ≤ 13 →
         (λ v, 0 <? v) <$> layer
         = (λ x, Z.testbit x 1) <$> to_mono (Mono [2; 5; -2]))
      ∧ (14 ≤ 1 → Forall (λ v, v = 0) layer).
Proof.
  assert (extract_multi_lsb_audio (Mono [2; 5; -2]) [1]
          = Ok (<[layer_key 1 := [8191; -8191; 8191]]> ∅)) as Hrun
    by reflexivity.
  assert (1 ∈ [1]) as Hb by apply list_elem_of_here.
  exact (conj Hrun (conj Hb (lsb_layer_sign _ _ 1 _ Hrun Hb))).
Defined.

(** Witness of [mean_int16_in_range]: a frame whose sum is negative and
    odd. *)
Lemma mean_int16_in_range_witness :
  [-32768; 32767; -2] ≠ []
  ∧ Forall (λ x, -32768 ≤ x ≤ 32767) [-32768; 32767; -2]
  ∧ mean_int16 [-32768; 32767; -2]
    = Z.quot (foldr Z.add 0 [-32768; 32767; -2]) (len [-32768; 32767; -2])
  ∧ -32768 ≤ mean_int16 [-32768; 32767; -2] ≤ 32767.
Proof.
  assert ([-32768; 32767; -2] ≠ []) as Hne by discriminate.
  assert (Forall (λ x, -32768 ≤ x ≤ 32767) [-32768; 32767; -2]) as Hrow
    by (repeat constructor; lia).
  exact (conj Hne (conj Hrow (mean_int16_in_range _ Hne Hrow))).
Defined.

(** Witness of [fingerprint_empty_signal]. *)
Lemma fingerprint_empty_signal_witness :
  ndarray_len (Mono []) = 0
  ∧ @extract_frequency_domain_data impulse_numpy (Mono []) 44100 = [0; 1; 0; 1].
Proof.
  assert (ndarray_len (Mono []) = 0) as Hlen by reflexivity.
  exact (conj Hlen (@fingerprint_empty_signal impulse_numpy _ 44100 Hlen)).
Defined.

(** Witness of [fingerprint_multichannel]: one frame of stereo. *)
Lemma fingerprint_multichannel_witness :
  @np_phase stereo_numpy stereo_frame = Ok [Row [0; 0]%float]
  ∧ Forall wide_row [Row [0; 0]%float]
  ∧ @extract_frequency_domain_data stereo_numpy stereo_frame 44100
    = [0; 1; 0; 1].
Proof.
  assert (@np_phase stereo_numpy stereo_frame = Ok [Row [0; 0]%float]) as Hphase
    by reflexivity.
  assert (Forall wide_row [Row [0; 0]%float]) as Hrows.
  { repeat constructor. exists [0; 0]%float. split; [reflexivity|]. simpl. lia. }
  exact (conj Hphase (conj Hrows
           (@fingerprint_multichannel stereo_numpy _ 44100 _ Hphase Hrows))).
Defined.

(** Witness of [spectrograms_first_30_seconds]: at one sample a second, a
    signal of forty samples. *)
Lemma spectrograms_first_30_seconds_witness :
  0 ≤ 1
  ∧ @generate_advanced_spectrogram impulse_numpy counting_matplotlib
      (take (Z.to_nat (30 * 1)) (replicate 40 7)) 1
    = @generate_advanced_spectrogram impulse_numpy counting_matplotlib
        (replicate 40 7) 1.
Proof.
  assert (0 ≤ 1) as Hrate by lia.
  exact (conj Hrate
           (@spectrograms_first_30_seconds impulse_numpy counting_matplotlib
              (replicate 40 7) 1 Hrate)).
Defined.

(** Witness of [upload_answer]: the impulse upload. *)
Lemma upload_answer_witness :
  env_wav impulse_upload = Ok (1760, impulse)
  ∧ env_unlink impulse_upload = Ok ()
  ∧ @upload_processing impulse_numpy impulse_upload
    = {| status := 200;
         payload :=
           UploadBody true
             (env_generate_advanced_spectrogram impulse_upload
                (parity_layer impulse) 1760)
             (extract_complex_metadata (env_now impulse_upload)
                (env_tags impulse_upload))
             (@extract_frequency_domain_data impulse_numpy impulse 1760)
             (lit "Multiple layers detected. Analyze ALL spectrograms and consider time-based elements.")
             (lit "Some ciphers use multi-stage decryption. Current time may be relevant.") |}.
Proof.
  assert (env_wav impulse_upload = Ok (1760, impulse)) as Hwav by reflexivity.
  assert (env_unlink impulse_upload = Ok ()) as Hunlink by reflexivity.
  exact (conj Hwav (conj Hunlink
           (@upload_answer impulse_numpy impulse_upload 1760 impulse
              Hwav Hunlink))).
Defined.

(** Witness of [lsb_raises_iff]: a negative position after a good one. *)
Lemma lsb_raises_iff_witness :
  Forall (λ b, -32768 ≤ b ≤ 32767) [0; -1]
  ∧ extract_multi_lsb_audio (Mono [1; 2]) [0; -1] = Raise ValueError.
Proof.
  assert (Forall (λ b, -32768 ≤ b ≤ 32767) [0; -1]) as Hfit
    by (repeat constructor; lia).
  refine (conj Hfit _).
  apply (proj2 (lsb_raises_iff (Mono [1; 2]) [0; -1] ValueError Hfit)).
  split; [reflexivity|].
  apply Exists_cons_tl, Exists_cons_hd. lia.
Defined.


(** Witness of [upload_status_200_iff]: the impulse upload, named cry.WAV. *)
Lemma upload_status_200_iff_witness :
  sixteen_bit_upload impulse_upload
  ∧ status (@upload_file ascii_tables impulse_numpy (Some (lit "cry.WAV"))
              impulse_upload) = 200.
Proof.
  assert (sixteen_bit_upload impulse_upload) as Hfile.
  { intros sample_rate data [= _ <-]. repeat constructor; lia. }
  refine (conj Hfile _).
  apply (proj2 (@upload_status_200_iff ascii_tables impulse_numpy
                  (Some (lit "cry.WAV")) impulse_upload Hfile)).
  split; [by exists (lit "cry.WAV")|]. split; [|reflexivity].
  by exists 1760, impulse.
Defined.

(** Witness of [upload_unlinks_iff]: the impulse upload decodes, and the
    handler unlinks its temporary file. *)
Lemma upload_unlinks_iff_witness :
  sixteen_bit_upload impulse_upload
  ∧ UnlinkTemp ∈ fst (@upload_processing_io impulse_numpy impulse_upload).
Proof.
  assert (sixteen_bit_upload impulse_upload) as Hfile.
  { intros sample_rate data [= _ <-]. repeat constructor; lia. }
  refine (conj Hfile _).
  apply (proj1 (proj2 (@upload_unlinks_iff impulse_numpy impulse_upload Hfile))).
  by exists 1760, impulse.
Defined.
